(** * openMM: matchmaking and rating engine

    A shallow embedding of the matchmaking core of the openMM bot
    ([helper.py], [bot.py]) together with the properties stated about it.

    Conventions of the embedding.
    - Python [int] is [Z]; member, guild and channel ids are [Z].
    - A [dict] whose iteration order is observed (the rating snapshot given
      to [getTeams]) is an association list with distinct keys; a [dict]
      that is only looked up is a [gmap].
    - A Python [list] that is mutated in place and reachable through more
      than one reference (the two rosters of a match) lives in a store of
      list objects and is named by its location.
    - An exception that escapes a handler is an explicit outcome that
      carries the state as it was when the exception was raised.
    - The floating point kernel of the rating predictor (true division,
      [10 ** x], [round]) is a parameter of the development: nothing below
      depends on the values it returns. *)

From Stdlib Require Import Ascii.
From stdpp Require Import gmap strings list sorting.

Open Scope Z_scope.

(** ** Python built-ins used by the program *)

Module Py.

(** [sum] over integers. *)
Definition sum (l : list Z) : Z := foldr Z.add 0 l.

(** [d.get(k)] on a dict kept in insertion order. *)
Fixpoint dict_get {V : Type} (d : list (Z * V)) (k : Z) : option V :=
  match d with
  | [] => None
  | (k', v) :: d' => if bool_decide (k' = k) then Some v else dict_get d' k
  end.

(** [d[k]] for a key known to be present; the programs below only index
    with keys taken from [d.keys()], so the [KeyError] branch is dead and
    is given the value [0]. *)
Definition getitem (d : list (Z * Z)) (k : Z) : Z := default 0 (dict_get d k).

(** [itertools.combinations(l, r)]: the [r]-element subsequences of [l], in
    lexicographic order of the chosen positions. *)
Fixpoint combinations {A : Type} (l : list A) (r : nat) {struct l}
  : list (list A) :=
  match r, l with
  | O, _ => [[]]
  | S _, [] => []
  | S r', x :: l' => (cons x <$> combinations l' r') ++ combinations l' r
  end.

(** [a < b] on tuples of integers: lexicographic, a proper prefix is
    smaller. *)
Fixpoint tuple_lt (a b : list Z) : bool :=
  match a, b with
  | _, [] => false
  | [], _ :: _ => true
  | x :: a', y :: b' =>
      if x <? y then true else if y <? x then false else tuple_lt a' b'
  end.

(** [sorted(l)]: a stable sort that only uses [<]. An element is placed
    after the elements that are smaller and before every element that is
    not, so equal elements keep the order they had in [l]. *)
Fixpoint insert_sorted {A : Type} (lt : A → A → bool) (x : A) (l : list A)
  : list A :=
  match l with
  | [] => [x]
  | y :: l' => if lt y x then y :: insert_sorted lt x l' else x :: l
  end.

Definition sorted {A : Type} (lt : A → A → bool) (l : list A) : list A :=
  foldr (insert_sorted lt) [] l.

(** [l.remove(x)]: drops the first element equal to [x] (the callers check
    [x in l] first, so [ValueError] is not raised). *)
Fixpoint list_remove {A : Type} (eqb : A → A → bool) (x : A) (l : list A)
  : list A :=
  match l with
  | [] => []
  | y :: l' => if eqb y x then l' else y :: list_remove eqb x l'
  end.

(** [d[k] = v] on a dict kept in insertion order: an existing key keeps its
    position. *)
Fixpoint dict_set {V : Type} (d : list (Z * V)) (k : Z) (v : V)
  : list (Z * V) :=
  match d with
  | [] => [(k, v)]
  | (k', v') :: d' =>
      if bool_decide (k' = k) then (k, v) :: d' else (k', v') :: dict_set d' k v
  end.

(** [{k: v for (k, v) in items}] *)
Definition dict_of {V : Type} (items : list (Z * V)) : list (Z * V) :=
  foldl (λ d kv, dict_set d kv.1 kv.2) [] items.

(** [x is None or not x] for an optional integer. *)
Definition falsy (x : option Z) : bool :=
  match x with
  | None => true
  | Some v => bool_decide (v = 0)
  end.

(** Characters: [str.lower], [\d], [int]. *)
Definition lower (c : ascii) : ascii :=
  let n := N_of_ascii c in
  if ((65 <=? n) && (n <=? 90))%N then ascii_of_N (n + 32) else c.

Definition is_digit (c : ascii) : bool :=
  let n := N_of_ascii c in ((48 <=? n) && (n <=? 57))%N.

Definition int_of_digits (ds : list ascii) : Z :=
  foldl (λ acc c, 10 * acc + (Z.of_N (N_of_ascii c) - 48)) 0 ds.

(** [s.strip()] and the test [\s] of a pattern: the characters for which
    [str.isspace] holds, among the code points below 256. *)
Definition is_space (c : ascii) : bool :=
  let n := N_of_ascii c in
  (((9 <=? n) && (n <=? 13)) || ((28 <=? n) && (n <=? 32))
   || (n =? 133) || (n =? 160))%N.

End Py.

(** ** helper.py *)

Module Helper.
Import Py.

(** The dict returned by [getTeams]. *)
Record Matchup := mkMatchup {
  redTeam : list Z;
  blueTeam : list Z;
  eloRedTeam : list (Z * Z);
  eloBlueTeam : list (Z * Z);
  eloDifference : Z
}.

(** [{p: eloData[p] for p in team}] *)
Definition eloOf (eloData : list (Z * Z)) (team : list Z) : list (Z * Z) :=
  (λ p, (p, getitem eloData p)) <$> team.

(** [tuple(sorted(set(players) - set(team1)))] *)
Definition complement (players team1 : list Z) : list Z :=
  sorted Z.ltb (filter (λ p, p ∉ team1) players).

(** [tuple(sorted([team1, team2]))] *)
Definition matchupKey (team1 team2 : list Z) : list (list Z) :=
  sorted tuple_lt [team1; team2].

(** [diff < smallestDiff], where [smallestDiff] starts as [float('inf')]
    ([None]) and is an integer afterwards. *)
Definition below (diff : Z) (smallestDiff : option Z) : bool :=
  match smallestDiff with
  | None => true
  | Some s => diff <? s
  end.

(** The variables of the loop of [getTeams]. *)
Record Search := mkSearch {
  seen : gset (list (list Z));
  bestMatchup : option Matchup;
  smallestDiff : option Z
}.

(** One iteration of [for team1 in allTeamCombos]. *)
Definition getTeams_step (eloData : list (Z * Z)) (players : list Z)
    (s : Search) (team1 : list Z) : Search :=
  let team2 := complement players team1 in
  let key := matchupKey team1 team2 in
  if bool_decide (key ∈ seen s) then s
  else
    let seen' := {[ key ]} ∪ seen s in
    let eloRed := eloOf eloData team1 in
    let eloBlue := eloOf eloData team2 in
    let diff := Z.abs (sum eloRed.*2 - sum eloBlue.*2) in
    if below diff (smallestDiff s) then
      mkSearch seen' (Some (mkMatchup team1 team2 eloRed eloBlue diff))
               (Some diff)
    else mkSearch seen' (bestMatchup s) (smallestDiff s).

Definition getTeams (eloData : list (Z * Z)) : option Matchup :=
  let players := eloData.*1 in
  let n := length players in
  let teamSize := (n / 2)%nat in
  let allTeamCombos := combinations players teamSize in
  bestMatchup
    (foldl (getTeams_step eloData players) (mkSearch ∅ None None)
           allTeamCombos).

(** *** The rating predictor

    [calculatePreGameElo] computes in floating point. The four operations
    it performs on floats are kept abstract: [truediv s n] is [s / n] for
    integers [s] and [n <> 0]; [expectedScore avg elo] is
    [1 / (1 + 10 ** ((avg - elo) / 400))]; [roundWon k e] is
    [round(k * (1 - e))] and [roundLoss k e] is [round(k * (0 - e))]. *)
Record FloatKernel := mkFloatKernel {
  float : Type;
  truediv : Z → Z → float;
  expectedScore : float → Z → float;
  roundWon : Z → float → Z;
  roundLoss : Z → float → Z
}.

(** [{"won": ..., "loss": ...}] *)
Record Adjustment := mkAdjustment {
  won : Z;
  loss : Z
}.

(** The dict returned by [calculatePreGameElo]; [redAdjustments] is stored
    under the key ["redTeam"] and [blueAdjustments] under ["blueTeam"]. *)
Record PreGameElo := mkPreGameElo {
  redAdjustments : gmap Z Adjustment;
  blueAdjustments : gmap Z Adjustment
}.

(** [for player in team: adjustments[player] = {...}] *)
Definition adjustTeam (fk : FloatKernel) (perPlayerK : Z)
    (avgOpp : float fk) (eloTeam : list (Z * Z)) (team : list Z)
  : gmap Z Adjustment :=
  foldl (λ adjustments player,
           let e := expectedScore fk avgOpp (getitem eloTeam player) in
           <[player := mkAdjustment (roundWon fk perPlayerK e)
                                    (roundLoss fk perPlayerK e)]> adjustments)
        ∅ team.

(** [calculatePreGameElo(matchup, perPlayerK)]; [None] is the
    [ZeroDivisionError] raised by [sum(...) / len(...)] on an empty team. *)
Definition calculatePreGameElo (fk : FloatKernel) (matchup : Matchup)
    (perPlayerK : Z) : option PreGameElo :=
  if bool_decide (length (blueTeam matchup) = 0%nat) then None
  else
    let avgBlueElo :=
      truediv fk (sum (eloBlueTeam matchup).*2)
              (Z.of_nat (length (blueTeam matchup))) in
    if bool_decide (length (redTeam matchup) = 0%nat) then None
    else
      let avgRedElo :=
        truediv fk (sum (eloRedTeam matchup).*2)
                (Z.of_nat (length (redTeam matchup))) in
      Some (mkPreGameElo
              (adjustTeam fk perPlayerK avgBlueElo (eloRedTeam matchup)
                          (redTeam matchup))
              (adjustTeam fk perPlayerK avgRedElo (eloBlueTeam matchup)
                          (blueTeam matchup))).

(** *** generateShortId

    [secrets.choice] is the one source of randomness: [choice k] is the
    character its [k]-th call returns. The loop [while True] need not end;
    [fuel] bounds the number of candidates that are drawn, and [None] means
    that all of them were taken. [k] is the number of calls made so far. *)
Fixpoint generateShortId (fuel : nat) (choice : nat → ascii) (k : nat)
    (currentUuids : gset string) (length : nat) : option string :=
  match fuel with
  | O => None
  | S fuel' =>
      let newId := String.string_of_list_ascii (choice <$> seq k length) in
      if bool_decide (newId ∈ currentUuids)
      then generateShortId fuel' choice (k + length) currentUuids length
      else Some newId
  end.

(** [string.ascii_letters + string.digits] *)
Definition alphabet : list ascii :=
  String.list_ascii_of_string
    "abcdefghijklmnopqrstuvwxyzABCDEFGHIJKLMNOPQRSTUVWXYZ0123456789".

End Helper.


(** ** bot.py *)

Module Bot.
Import Py.

(** *** Outcomes of a handler *)

Inductive Exception :=
  | KeyError
  | ZeroDivisionError
  | TypeError.

(** The embeds and messages a handler answers with when it gives up. *)
Inductive Notice :=
  | AlreadyEndedOrCancelled   (* "Match has already been ended/cancelled" *)
  | MatchNotFound             (* "Match Not Found" *)
  | MatchStillActive          (* "Match Still Active" *)
  | MatchAlreadyEnded         (* "The match has already ended." *)
  | SelectBoth                (* "Please select both a player ..." *)
  | MemberNotFound            (* "Could not find one of the selected members." *)
  | NotInMatch                (* "The player to replace is not in the match." *)
  | FailedToMove              (* "Failed to move members or update VC ..." *)
  | NotEnoughPeople           (* "Not enough people to start" *)
  | NotInQueue                (* "You are not in queue" *)
  | InvalidPermissions        (* "Invalid permissions" *)
  | BlacklistRoleNotSet       (* "Blacklist role not set." *)
  | BlacklistRoleNotFound     (* "Blacklist role not found." *)
  | AlreadyPenalized          (* "Already Penalized" *)
  | InvalidDuration.          (* "Invalid duration" *)

Inductive Outcome :=
  | Completed
  | Notified (n : Notice)
  | Raised (e : Exception).

(** *** State *)

(** A [discord.Member]; two members are equal when their ids are. *)
Record Member := mkMember {
  id : Z;
  bot : bool
}.

Definition member_eqb (a b : Member) : bool := bool_decide (id a = id b).

(** Locations of list objects. *)
Abbreviation loc := positive.

(** An entry of [matches]. The rosters are references to list objects; the
    voice channels, mention strings, queue channel and link are handles of
    the platform and are left out. *)
Record Match := mkMatch {
  preGameEloCalc : Helper.PreGameElo;
  redTeam : loc;
  blueTeam : loc;
  who_won : option Z;
  host : Z
}.

(** The globals of [bot.py], for one guild: [matches], [guildStats] (a
    member's stats are a dict from stat names to integers),
    [voicePresence] (join times, only ever compared) and [penaltyData];
    [lists] is the store of roster objects. *)
Record State := mkState {
  matches : gmap string Match;
  guildStats : gmap Z (gmap string Z);
  lists : gmap loc (list Z);
  voicePresence : gmap Z Z;
  penaltyData : gmap Z (list (Z * Z))
}.

Definition set_matches (st : State) (ms : gmap string Match) : State :=
  mkState ms (guildStats st) (lists st) (voicePresence st) (penaltyData st).

Definition set_guildStats (st : State) (gs : gmap Z (gmap string Z)) : State :=
  mkState (matches st) gs (lists st) (voicePresence st) (penaltyData st).

Definition set_lists (st : State) (ls : gmap loc (list Z)) : State :=
  mkState (matches st) (guildStats st) ls (voicePresence st) (penaltyData st).

Definition set_penaltyData (st : State) (pd : gmap Z (list (Z * Z))) : State :=
  mkState (matches st) (guildStats st) (lists st) (voicePresence st) pd.

Definition set_who_won (m : Match) (w : option Z) : Match :=
  mkMatch (preGameEloCalc m) (redTeam m) (blueTeam m) w (host m).

Definition set_redTeam (m : Match) (l : loc) : Match :=
  mkMatch (preGameEloCalc m) l (blueTeam m) (who_won m) (host m).

Definition set_blueTeam (m : Match) (l : loc) : Match :=
  mkMatch (preGameEloCalc m) (redTeam m) l (who_won m) (host m).

Definition set_preGameEloCalc (m : Match) (c : Helper.PreGameElo) : Match :=
  mkMatch c (redTeam m) (blueTeam m) (who_won m) (host m).

(** The list object a roster reference points to. *)
Definition roster (st : State) (l : loc) : list Z := lists st !!! l.

(** *** updateElo *)

(** [{"elo": 100, "wins": 0, "played": 0, "hosted": 0}] *)
Definition initialStats : gmap string Z :=
  <["elo" := 100]> (<["wins" := 0]> (<["played" := 0]> (<["hosted" := 0]> ∅))).

(** One iteration of [for key, value in stats.items()]. *)
Definition updateStat (update : bool) (record : gmap string Z)
    (kv : string * Z) : gmap string Z :=
  match record !! kv.1 with
  | Some old => if update then <[kv.1 := old + kv.2]> record
                else <[kv.1 := kv.2]> record
  | None => <[kv.1 := kv.2]> record
  end.

(** [updateElo(member, guild, stats, updateNick, update)] on [guildStats];
    the nickname edit is an effect on the platform only. *)
Definition updateElo (gs : gmap Z (gmap string Z)) (member : Z)
    (stats : list (string * Z)) (update : bool) : gmap Z (gmap string Z) :=
  let record := default initialStats (gs !! member) in
  <[member := foldl (updateStat update) record stats]> gs.

(** [guildStats.get(guildId, {}).get(str(m.id), {}).get(key, d)] *)
Definition stat (gs : gmap Z (gmap string Z)) (member : Z) (key : string)
    (d : Z) : Z :=
  default d (gs !! member ≫= λ record, record !! key).

(** *** endMatch, swapWinners, cancelMatch *)

(** [for m in team: await updateElo(m, ..., stats={"elo":
    delta(adjustments[m.id]), "played": played, "wins": win}, update=True)].
    The stats dict is built before [updateElo] is called, so a missing
    [m.id] raises [KeyError] with the earlier members already updated. *)
Fixpoint applyResults (adjustments : gmap Z Helper.Adjustment)
    (delta : Helper.Adjustment → Z) (played win : Z)
    (gs : gmap Z (gmap string Z)) (team : list Z)
  : gmap Z (gmap string Z) * option Exception :=
  match team with
  | [] => (gs, None)
  | m :: team' =>
      match adjustments !! m with
      | None => (gs, Some KeyError)
      | Some a =>
          applyResults adjustments delta played win
            (updateElo gs m
               [("elo", delta a); ("played", played); ("wins", win)] true)
            team'
      end
  end.

(** The two loops, red team first. *)
Definition applyMatch (cMatch : Match) (redTeam blueTeam : list Z)
    (redDelta blueDelta : Helper.Adjustment → Z) (played rWin bWin : Z)
    (gs : gmap Z (gmap string Z))
  : gmap Z (gmap string Z) * option Exception :=
  match applyResults (Helper.redAdjustments (preGameEloCalc cMatch))
          redDelta played rWin gs redTeam with
  | (gs1, Some e) => (gs1, Some e)
  | (gs1, None) =>
      applyResults (Helper.blueAdjustments (preGameEloCalc cMatch))
        blueDelta played bWin gs1 blueTeam
  end.

Definition finish (st : State) (r : gmap Z (gmap string Z) * option Exception)
  : State * Outcome :=
  match r with
  | (gs, Some e) => (set_guildStats st gs, Raised e)
  | (gs, None) => (set_guildStats st gs, Completed)
  end.

(** [endMatch(interaction, matchId, winner)]; [winner] is [0] for red and
    [1] for blue. *)
Definition endMatch (st : State) (matchId : string) (winner : Z)
  : State * Outcome :=
  match matches st !! matchId with
  | None => (st, Notified AlreadyEndedOrCancelled)
  | Some cMatch =>
      match who_won cMatch with
      | Some _ => (st, Notified AlreadyEndedOrCancelled)
      | None =>
          let redTeam := roster st (redTeam cMatch) in
          let blueTeam := roster st (blueTeam cMatch) in
          let st1 :=
            set_matches st
              (<[matchId := set_who_won cMatch (Some winner)]> (matches st)) in
          finish st1
            (if bool_decide (winner = 0) then
               applyMatch cMatch redTeam blueTeam Helper.won Helper.loss
                          1 1 0 (guildStats st1)
             else
               applyMatch cMatch redTeam blueTeam Helper.loss Helper.won
                          1 0 1 (guildStats st1))
      end
  end.

(** [swapWinners(interaction, matchId)] *)
Definition swapWinners (st : State) (matchId : string) : State * Outcome :=
  match matches st !! matchId with
  | None => (st, Notified MatchNotFound)
  | Some cMatch =>
      match who_won cMatch with
      | None => (st, Notified MatchStillActive)
      | Some w =>
          let newWinner := if bool_decide (w = 1) then 0 else 1 in
          let st1 :=
            set_matches st
              (<[matchId := set_who_won cMatch (Some newWinner)]> (matches st))
          in
          let redTeam := roster st (redTeam cMatch) in
          let blueTeam := roster st (blueTeam cMatch) in
          finish st1
            (if bool_decide (newWinner = 0) then
               applyMatch cMatch redTeam blueTeam
                          (λ a, Helper.won a * 2) (λ a, Helper.loss a * 2)
                          0 1 (-1) (guildStats st1)
             else
               applyMatch cMatch redTeam blueTeam
                          (λ a, Helper.loss a * 2) (λ a, Helper.won a * 2)
                          0 (-1) 1 (guildStats st1))
      end
  end.

(** [cancelMatch(interaction, matchId, reason)] *)
Definition cancelMatch (st : State) (matchId : string) : State * Outcome :=
  match matches st !! matchId with
  | None => (st, Notified AlreadyEndedOrCancelled)
  | Some cMatch =>
      match who_won cMatch with
      | Some _ => (st, Notified AlreadyEndedOrCancelled)
      | None => (set_matches st (delete matchId (matches st)), Completed)
      end
  end.

(** *** ReplacePlayerView.replace *)

(** [match.get("is won")]: a match dict is created with the keys
    ["preGameEloCalc"], ["redTeam"], ["blueTeam"], ["who won"], ["host"],
    ["redVC"], ["blueVC"], ["redMention"], ["blueMention"], ["allMention"],
    ["queue"] and ["link"], and no statement adds a key to it, so the
    lookup of ["is won"] yields [None]. *)
Definition get_is_won (m : Match) : option Z := None.

(** The live ratings of a roster:
    [{m.id: guildStats...get("elo", 100) for m in members}] *)
Definition liveElo (gs : gmap Z (gmap string Z)) (members : list Z)
  : list (Z * Z) :=
  dict_of ((λ m, (m, stat gs m "elo" 100)) <$> members).

(** [replace(self, interaction, button)]. [guildMembers] holds the ids
    [guild.get_member] resolves; [vcOk] tells whether the three platform
    calls in the [try] block ([vc.edit] and the two [move_to]) succeed. *)
Definition replace (fk : Helper.FloatKernel) (st : State)
    (guildMembers : gset Z) (vcOk : bool) (matchId : string)
    (selectedFromA selectedFromB : option Z) : State * Outcome :=
  match matches st !! matchId with
  | None => (st, Notified MatchAlreadyEnded)
  | Some match_ =>
      match get_is_won match_ with
      | Some _ => (st, Notified MatchAlreadyEnded)
      | None =>
          if falsy selectedFromA || falsy selectedFromB
          then (st, Notified SelectBoth)
          else
            let memberToReplace := default 0 selectedFromA in
            let replacement := default 0 selectedFromB in
            if bool_decide (memberToReplace ∉ guildMembers)
               || bool_decide (replacement ∉ guildMembers)
            then (st, Notified MemberNotFound)
            else
              let teamList :=
                if bool_decide (memberToReplace ∈ roster st (redTeam match_))
                then Some (redTeam match_)
                else if bool_decide
                          (memberToReplace ∈ roster st (blueTeam match_))
                then Some (blueTeam match_)
                else None in
              match teamList with
              | None => (st, Notified NotInMatch)
              | Some teamList =>
                  (* teamList.remove(memberToReplace);
                     teamList.append(replacement) *)
                  let st1 :=
                    set_lists st
                      (<[teamList :=
                           list_remove Z.eqb memberToReplace
                                       (roster st teamList)
                           ++ [replacement]]> (lists st)) in
                  if negb vcOk then (st1, Notified FailedToMove)
                  else
                    (* Update match dict *)
                    let match1 :=
                      if bool_decide
                           (memberToReplace ∈ roster st1 (redTeam match_))
                      then set_redTeam match_ teamList
                      else set_blueTeam match_ teamList in
                    let st2 :=
                      set_matches st1 (<[matchId := match1]> (matches st1)) in
                    (* Recalculate pre-game Elo *)
                    match Helper.getTeams
                            (liveElo (guildStats st2)
                               (roster st2 (redTeam match1)
                                ++ roster st2 (blueTeam match1))) with
                    | None => (st2, Raised TypeError)
                    | Some teams =>
                        match Helper.calculatePreGameElo fk teams 30 with
                        | None => (st2, Raised ZeroDivisionError)
                        | Some calc =>
                            (set_matches st2
                               (<[matchId := set_preGameEloCalc match1 calc]>
                                  (matches st2)),
                             Completed)
                        end
                    end
              end
      end
  end.

(** *** startMatch, from the snapshot of the queue on *)

(** [for member in queueMembers: if member.bot: queueMembers.pop(member)].
    [list.pop] takes an index, so the call raises [TypeError] for the first
    bot met; no call ever removes an element. *)
Fixpoint removeBots (it : list Member) : option Exception :=
  match it with
  | [] => None
  | member :: it' => if bot member then Some TypeError else removeBots it'
  end.

(** [a < b] on the sort keys [voiceData.get(m.id, float('inf'))]; [None] is
    [float('inf')]. *)
Definition joinTime_lt (a b : option Z) : bool :=
  match a, b with
  | Some x, Some y => x <? y
  | Some _, None => true
  | None, _ => false
  end.

(** Lines 371 to 406: the members a match is made of, or the way the
    handler ends before choosing them. *)
Definition selectMembers (voiceData : gmap Z Z) (queueMembers : list Member)
    (user : Member) (matchType : Z) : Outcome + list Member :=
  match removeBots queueMembers with
  | Some e => inl (Raised e)
  | None =>
      if Z.of_nat (length queueMembers) <? matchType * 2
      then inl (Notified NotEnoughPeople)
      else if negb (existsb (λ m, member_eqb m user) queueMembers)
      then inl (Notified NotInQueue)
      else
        let byWait :=
          sorted (λ a b, joinTime_lt (voiceData !! id a) (voiceData !! id b))
                 queueMembers in
        let others := list_remove member_eqb user byWait in
        inr (take (Z.to_nat (matchType * 2)) (user :: others))
  end.

(** The rest of [startMatch]. [matchId] is the id returned by
    [generateShortId(matches)], which is not a key of [matches]. *)
Definition startMatch (fk : Helper.FloatKernel) (st : State)
    (queueMembers : list Member) (user : Member) (matchType : Z)
    (matchId : string) : State * Outcome :=
  match selectMembers (voicePresence st) queueMembers user matchType with
  | inl o => (st, o)
  | inr queueMembers =>
      let formattedMembers := liveElo (guildStats st) (id <$> queueMembers) in
      match Helper.getTeams formattedMembers with
      | None => (st, Raised TypeError)
      | Some teams =>
          match Helper.calculatePreGameElo fk teams 30 with
          | None => (st, Raised ZeroDivisionError)
          | Some preGameEloCalc =>
              let gs :=
                foldl (λ gs m,
                         if member_eqb m user
                         then updateElo gs (id m) [("hosted", 1)] true
                         else gs)
                      (guildStats st) queueMembers in
              let redTeam :=
                filter (λ m, m ∈ Helper.redTeam teams) (id <$> queueMembers) in
              let blueTeam :=
                filter (λ m, m ∈ Helper.blueTeam teams) (id <$> queueMembers)
              in
              let redLoc := fresh (dom (lists st)) in
              let lists1 := <[redLoc := redTeam]> (lists st) in
              let blueLoc := fresh (dom lists1) in
              let lists2 := <[blueLoc := blueTeam]> lists1 in
              (mkState
                 (<[matchId :=
                      mkMatch preGameEloCalc redLoc blueLoc None (id user)]>
                    (matches st))
                 gs lists2 (voicePresence st) (penaltyData st),
               Completed)
          end
      end
  end.

(** *** parse_duration and penalty *)

Definition is_unit (c : ascii) : bool :=
  bool_decide (c = "d"%char) || bool_decide (c = "h"%char)
  || bool_decide (c = "m"%char) || bool_decide (c = "s"%char).

(** [re.findall(r"(\d+)([dhms])", s)]. A match starts at the first digit
    of a run of digits and takes the whole run (the repetition is greedy,
    and giving a digit back leaves a digit where the unit is expected), so
    it is enough to read [s] once: [run] is the run of digits that ends at
    the current position. A character that is neither a digit nor a unit
    after a run, and a unit with no run before it, match nothing. *)
Fixpoint findall (s : list ascii) (run : list ascii)
  : list (list ascii * ascii) :=
  match s with
  | [] => []
  | c :: s' =>
      if is_digit c then findall s' (run ++ [c])
      else if is_unit c && negb (bool_decide (run = []))
      then (run, c) :: findall s' []
      else findall s' []
  end.

(** [parse_duration(duration_str)]: the branches for ['d'], ['h'] and ['m']
    add to [total_seconds]; there is no branch for ['s']. *)
Definition parse_duration (duration_str : string) : Z :=
  foldl (λ total_seconds au,
           let amount := int_of_digits au.1 in
           let unit := au.2 in
           if bool_decide (unit = "d"%char) then total_seconds + amount * 86400
           else if bool_decide (unit = "h"%char)
           then total_seconds + amount * 3600
           else if bool_decide (unit = "m"%char)
           then total_seconds + amount * 60
           else total_seconds)
        0
        (findall (lower <$> String.list_ascii_of_string duration_str) []).

(** [penalty(interaction, member, duration, reason)]. [permitted] is the
    permission test on the caller, [roleId] the configured blacklist role,
    [roleFound] whether the guild has that role, [penalized] whether the
    member carries it, [now] the value of [datetime.utcnow()]. *)
Definition penalty (st : State) (permitted : bool) (roleId : option Z)
    (roleFound penalized : bool) (member : Z) (duration : string) (now : Z)
  : State * Outcome :=
  if negb permitted then (st, Notified InvalidPermissions)
  else if falsy roleId then (st, Notified BlacklistRoleNotSet)
  else if negb roleFound then (st, Notified BlacklistRoleNotFound)
  else if penalized then (st, Notified AlreadyPenalized)
  else
    let total_seconds := parse_duration duration in
    if total_seconds <=? 0 then (st, Notified InvalidDuration)
    else
      (set_penaltyData st
         (<[member := default [] (penaltyData st !! member)
                      ++ [(now, total_seconds)]]> (penaltyData st)),
       Completed).
(** *** on_voice_state_update *)

(** [any((datetime.utcnow() - start).total_seconds() < duration for start,
    duration in active_penalty)]. Instants are counted in microseconds, the
    resolution of [datetime]; durations are in seconds. *)
Definition has_active_penalty (pd : gmap Z (list (Z * Z))) (memberId : Z)
    (now : Z) : bool :=
  existsb (λ sd, now - sd.1 <? sd.2 * 1000000) (default [] (pd !! memberId)).

(** What the platform hands to the handler and answers to its calls:
    the channels the member was in and is in, the role ids the member
    carries when the handler starts, whether the guild has the blacklist
    role, whether the member still carries the roles when
    [kick_if_blacklisted] reads them after a removal was requested, whether
    [member.move_to(None)] succeeds, and the two clocks. *)
Record VoiceUpdate := mkVoiceUpdate {
  vuMember : Z;
  vuBefore : option Z;
  vuAfter : option Z;
  vuRoles : gset Z;
  vuRoleFound : bool;
  vuRemovalSeen : bool;
  vuKickOk : bool;
  vuUtcnow : Z;
  vuTime : Z
}.

(** [kick_if_blacklisted()], given the role ids [member.roles] shows. *)
Definition kick_if_blacklisted (blacklistRoleId : option Z) (roles : gset Z)
    (kickOk : bool) : bool :=
  if negb (falsy blacklistRoleId)
     && bool_decide (default 0 blacklistRoleId ∈ roles)
  then kickOk
  else false.

(** [on_voice_state_update(member, before, after)], with the two settings
    of the guild it reads. *)
Definition on_voice_state_update (st : State)
    (queueChannelId blacklistRoleId : option Z) (u : VoiceUpdate) : State :=
  if falsy queueChannelId then st
  else
    let queue := default 0 queueChannelId in
    let memberId := vuMember u in
    let inRoles :=
      vuRoleFound u && bool_decide (default 0 blacklistRoleId ∈ vuRoles u) in
    let removed :=
      inRoles && negb (has_active_penalty (penaltyData st) memberId
                                          (vuUtcnow u)) in
    let roles :=
      if removed && vuRemovalSeen u
      then vuRoles u ∖ {[ default 0 blacklistRoleId ]}
      else vuRoles u in
    let set_presence vp :=
      mkState (matches st) (guildStats st) (lists st) vp (penaltyData st) in
    if bool_decide (vuAfter u = Some queue)
       && negb (bool_decide (vuBefore u = Some queue))
    then
      if kick_if_blacklisted blacklistRoleId roles (vuKickOk u) then st
      else set_presence (<[memberId := vuTime u]> (voicePresence st))
    else if bool_decide (vuBefore u = Some queue)
            && negb (bool_decide (vuAfter u = Some queue))
    then set_presence (delete memberId (voicePresence st))
    else st.

(** *** The elo command *)

(** The fields of the embed the command answers with. *)
Record Profile := mkProfile {
  pPlayed : Z;
  pWon : Z;
  pLost : Z;
  pElo : Z;
  pHosted : Z
}.

(** [elo(interaction, person)], once [canBotOperate] has passed. *)
Definition elo (st : State) (person : Z) : State * Profile :=
  let gs := updateElo (guildStats st) person [] true in
  let won := stat gs person "won" 0 in
  let played := stat gs person "played" 0 in
  let lost := played - won in
  (set_guildStats st gs,
   mkProfile played won lost (stat gs person "elo" 100)
             (stat gs person "hosted" 0)).

(** *** CancelMatchModal.on_submit *)

(** [s.strip().lower()] and [s.lower()] on lists of characters. *)
Fixpoint lstrip (s : list ascii) : list ascii :=
  match s with
  | [] => []
  | c :: s' => if is_space c then lstrip s' else s
  end.

Definition strip (s : list ascii) : list ascii :=
  reverse (lstrip (reverse (lstrip s))).

(** [on_submit]: the answer to a wrong confirmation word is sent, and the
    handler goes on to [cancelMatch]. The boolean tells whether the
    "Confirmation Failed" embed was sent. *)
Definition cancelModal_on_submit (st : State) (matchId : string)
    (confirm randomWord : string) : bool * (State * Outcome) :=
  let failed :=
    negb (bool_decide
            (lower <$> strip (String.list_ascii_of_string confirm)
             = lower <$> String.list_ascii_of_string randomWord)) in
  (failed, cancelMatch st matchId).

(** *** StartMatchModal.on_submit *)

Inductive ModalOutcome :=
  | InvalidMatchType          (* "Invalid match type" *)
  | Started (r : State * Outcome).

(** [on_submit]: the match type is checked against the four accepted
    spellings and its first character gives the team size. *)
Definition startModal_on_submit (fk : Helper.FloatKernel) (st : State)
    (queueMembers : list Member) (user : Member) (value : string)
    (matchId : string) : ModalOutcome :=
  let matchType := lower <$> String.list_ascii_of_string value in
  if bool_decide
       (matchType ∈ String.list_ascii_of_string
                      <$> ["1v1"; "3v3"; "4v4"; "5v5"]%string)
  then Started (startMatch fk st queueMembers user
                           (int_of_digits (take 1 matchType)) matchId)
  else InvalidMatchType.

(** *** stripTag *)

(** [re.match] with the pattern of [stripTag]: an opening bracket at the
    start of the text, a lazy run of characters other than the line feed,
    a closing bracket, a greedy run of white space, and one group that
    takes the rest of the line. The lazy run stops at the first closing
    bracket; there is no match ([None]) when the line ends before it. *)
Fixpoint after_bracket (s : list ascii) : option (list ascii) :=
  match s with
  | [] => None
  | c :: s' =>
      if bool_decide (c = "]"%char) then Some s'
      else if bool_decide (c = "010"%char) then None
      else after_bracket s'
  end.

Fixpoint line (s : list ascii) : list ascii :=
  match s with
  | [] => []
  | c :: s' => if bool_decide (c = "010"%char) then [] else c :: line s'
  end.

Definition stripTag (text : list ascii) : list ascii :=
  match text with
  | c :: s =>
      if bool_decide (c = "["%char) then
        match after_bracket s with
        | Some rest => line (lstrip rest)
        | None => text
        end
      else text
  | [] => text
  end.

End Bot.

(** * Properties *)

Import Py Helper.

(** ** Vocabulary of the statements *)

(** The rating sum of a side, and the absolute difference of two sides. *)
Definition teamSum (eloData : list (Z * Z)) (team : list Z) : Z :=
  sum (getitem eloData <$> team).

Definition sumDifference (eloData : list (Z * Z)) (A B : list Z) : Z :=
  Z.abs (teamSum eloData A - teamSum eloData B).

(** The difference [getTeams] computes for the candidate side [c]. *)
Definition diffOf (eloData : list (Z * Z)) (c : list Z) : Z :=
  sumDifference eloData c (complement eloData.*1 c).

(** The dict [getTeams] builds for the candidate side [c]. *)
Definition candidate (eloData : list (Z * Z)) (c : list Z) : Matchup :=
  let c' := complement eloData.*1 c in
  mkMatchup c c' (eloOf eloData c) (eloOf eloData c') (diffOf eloData c).

(** What the loop of [getTeams] has established once it has gone through
    the candidates [cs]: the best matchup is the first candidate of [cs]
    with the least difference. *)
Definition firstMinimum (eloData : list (Z * Z)) (cs : list (list Z))
    (s : Search) : Prop :=
  match cs with
  | [] => bestMatchup s = None ∧ smallestDiff s = None
  | _ => ∃ pre c post,
      cs = pre ++ c :: post
      ∧ bestMatchup s = Some (candidate eloData c)
      ∧ smallestDiff s = Some (diffOf eloData c)
      ∧ (∀ c', c' ∈ pre → diffOf eloData c < diffOf eloData c')
      ∧ (∀ c', c' ∈ post → diffOf eloData c ≤ diffOf eloData c')
  end.

(** A candidate whose key is in [seen] cannot improve on the best one. *)
Definition seenBound (eloData : list (Z * Z)) (s : Search) : Prop :=
  ∀ c, matchupKey c (complement eloData.*1 c) ∈ seen s →
       ∃ d, smallestDiff s = Some d ∧ d ≤ diffOf eloData c.


(** The ledger as the rest of the program reads it. *)
Definition rating (gs : gmap Z (gmap string Z)) (p : Z) : Z :=
  Bot.stat gs p "elo" 100.

Definition playedOf (gs : gmap Z (gmap string Z)) (p : Z) : Z :=
  Bot.stat gs p "played" 0.

Definition winsOf (gs : gmap Z (gmap string Z)) (p : Z) : Z :=
  Bot.stat gs p "wins" 0.

(** Every record of the ledger has the four stats [updateElo] creates a
    record with. *)
Definition statsComplete (gs : gmap Z (gmap string Z)) : Prop :=
  map_Forall (λ _ record,
                is_Some (record !! "elo") ∧ is_Some (record !! "wins")
                ∧ is_Some (record !! "played")
                ∧ is_Some (record !! "hosted")) gs.

(** The predicted deltas of a match cover its rosters, side by side: what
    the loops of [endMatch] and [swapWinners] index with. *)
Definition deltasCoverRoster (st : Bot.State) (m : Bot.Match) : Prop :=
  (∀ p, p ∈ Bot.roster st (Bot.redTeam m) →
        is_Some (redAdjustments (Bot.preGameEloCalc m) !! p))
  ∧ (∀ p, p ∈ Bot.roster st (Bot.blueTeam m) →
          is_Some (blueAdjustments (Bot.preGameEloCalc m) !! p)).

(** *** Concrete states *)

(** A record as [updateElo] creates it, with a rating of its own. *)
Definition rated (elo : Z) : gmap string Z := <["elo" := elo]> Bot.initialStats.

(** A one-a-side match between participant 1, rated 120, and participant 2,
    rated 100, with the deltas the predictor freezes for these ratings
    (14 and -16 for the favourite, 16 and -14 for the other). *)
Definition duel : Bot.Match :=
  Bot.mkMatch
    (mkPreGameElo {[ 1 := mkAdjustment 14 (-16) ]}
                  {[ 2 := mkAdjustment 16 (-14) ]})
    1%positive 2%positive None 1.

Definition duelState : Bot.State :=
  Bot.mkState {[ "dUeL01" := duel ]}
              {[ 1 := rated 120; 2 := rated 100 ]}
              {[ 1%positive := [1]; 2%positive := [2] ]}
              ∅ ∅.

(** Four members wait in the queue, none of them a bot; member 1 hosts. *)
Definition lobby : list Bot.Member :=
  [Bot.mkMember 1 false; Bot.mkMember 2 false; Bot.mkMember 3 false;
   Bot.mkMember 4 false].

(** No match, no rating recorded yet: every rating reads as 100. *)
Definition freshState : Bot.State := Bot.mkState ∅ ∅ ∅ ∅ ∅.

(** No match yet; members 1 to 5 are rated 120, 80, 100, 100 and 140. *)
Definition ratedState : Bot.State :=
  Bot.mkState ∅
    {[ 1 := rated 120; 2 := rated 80; 3 := rated 100; 4 := rated 100;
       5 := rated 140 ]}
    ∅ ∅ ∅.

(** The members of the guild in these scenarios. *)
Definition guild : gset Z := {[ 1; 2; 3; 4; 5 ]}.

(** The queue of [lobby] after a music bot has joined it. *)
Definition lobbyWithBot : list Bot.Member := Bot.mkMember 9 true :: lobby.

(** *** Durations *)



(** *** Waiting order *)

(** [a] has not joined the queue later than [b]; a member with no recorded
    join time counts as having joined last. *)
Definition joinedNoLater (voiceData : gmap Z Z) (a b : Bot.Member) : Prop :=
  Bot.joinTime_lt (voiceData !! Bot.id b) (voiceData !! Bot.id a) = false.

(** *** Matches the handlers can work on *)

(** The rosters of the match are disjoint, its predicted deltas cover them
    and the ledger is complete. *)
Definition matchReady (st : Bot.State) (m : Bot.Match) : Prop :=
  NoDup (Bot.roster st (Bot.redTeam m) ++ Bot.roster st (Bot.blueTeam m))
  ∧ deltasCoverRoster st m
  ∧ statsComplete (Bot.guildStats st).

(** [p] plays in the match, on either side, with the frozen deltas [a]. *)
Definition playsWith (st : Bot.State) (m : Bot.Match) (p : Z)
    (a : Adjustment) : Prop :=
  (p ∈ Bot.roster st (Bot.redTeam m)
   ∧ redAdjustments (Bot.preGameEloCalc m) !! p = Some a)
  ∨ (p ∈ Bot.roster st (Bot.blueTeam m)
     ∧ blueAdjustments (Bot.preGameEloCalc m) !! p = Some a).

(** The duel once red has been declared the winner. *)
Definition duelResolved : Bot.State := (Bot.endMatch duelState "dUeL01" 0).1.

(** [hosted] as the elo command reads it. *)
Definition hostedOf (gs : gmap Z (gmap string Z)) (p : Z) : Z :=
  Bot.stat gs p "hosted" 0.

(** No record of the ledger has a stat named ["won"]. *)
Definition noWonKey (gs : gmap Z (gmap string Z)) : Prop :=
  map_Forall (λ _ record, record !! "won" = None) gs.

(** The record [updateElo] starts from: the member's record, or the
    initial one when the member has none. *)
Definition recordOf (gs : gmap Z (gmap string Z)) (member : Z)
  : gmap string Z :=
  default Bot.initialStats (gs !! member).

(** A match whose red roster holds a member, 5, for whom no delta is
    recorded on the red side: the state [replace] leaves behind when it
    balances the roster afresh. *)
Definition halfCovered : Bot.State :=
  Bot.mkState
    {[ "h4lf01" :=
         Bot.mkMatch
           (mkPreGameElo {[ 1 := mkAdjustment 15 (-15) ]}
                         {[ 2 := mkAdjustment 15 (-15) ]})
           1%positive 2%positive None 1 ]}
    {[ 1 := rated 100 ]}
    {[ 1%positive := [1; 5]; 2%positive := [2] ]}
    ∅ ∅.
(** ** Lists, sorting and combinations *)

Section Lists.
Context {A : Type}.
Implicit Types (l c : list A) (x : A).

Lemma insert_sorted_perm (lt : A → A → bool) x l :
  insert_sorted lt x l ≡ₚ x :: l.
Proof.
  induction l as [|y l IH]; simpl; [done|].
  destruct (lt y x); [|done].
  rewrite IH. apply Permutation_swap.
Qed.

Lemma sorted_perm (lt : A → A → bool) l : sorted lt l ≡ₚ l.
Proof.
  induction l as [|x l IH]; simpl; [done|].
  rewrite insert_sorted_perm. by rewrite IH.
Qed.

Lemma combinations_sublist l : ∀ r c,
  c ∈ combinations l r → c `sublist_of` l ∧ length c = r.
Proof.
  induction l as [|x l IH]; intros [|r] c; simpl.
  - intros ->%list_elem_of_singleton. split; [constructor|done].
  - by intros ?%elem_of_nil.
  - intros ->%list_elem_of_singleton. split; [apply sublist_nil_l|done].
  - rewrite elem_of_app, list_elem_of_fmap.
    intros [(c' & -> & Hc')|Hc].
    + destruct (IH _ _ Hc') as [? ?]. split; [by constructor|simpl; lia].
    + destruct (IH _ _ Hc) as [? ?]. split; [by constructor|done].
Qed.

Lemma sublist_combinations l : ∀ c,
  c `sublist_of` l → c ∈ combinations l (length c).
Proof.
  induction l as [|x l IH]; intros c Hc.
  - apply sublist_nil_r in Hc as ->. simpl. by apply list_elem_of_singleton.
  - destruct c as [|y c]; [destruct l; simpl; by apply list_elem_of_singleton|].
    simpl. rewrite elem_of_app, list_elem_of_fmap.
    apply sublist_cons_r in Hc as [Hc|(c' & [= -> ->] & Hc)].
    + right. by apply (IH (y :: c)).
    + left. exists c'. split; [done|by apply IH].
Qed.

Lemma combinations_nonempty l r :
  (r ≤ length l)%nat → combinations l r ≠ [].
Proof.
  revert r. induction l as [|x l IH]; intros [|r] Hr; simpl in *; try done.
  - lia.
  - intros [Hm _]%app_eq_nil. apply fmap_nil_inv in Hm.
    revert Hm. apply IH. lia.
Qed.

End Lists.

(** ** getTeams *)

Section GetTeams.
Variable eloData : list (Z * Z).
Local Abbreviation players := (eloData.*1).

Lemma sum_perm (l1 l2 : list Z) : l1 ≡ₚ l2 → sum l1 = sum l2.
Proof. induction 1; simpl in *; lia. Qed.

Lemma teamSum_perm (A B : list Z) :
  A ≡ₚ B → teamSum eloData A = teamSum eloData B.
Proof. intros H. unfold teamSum. apply sum_perm. by rewrite H. Qed.

Lemma sumDifference_perm (A A' B B' : list Z) :
  A ≡ₚ A' → B ≡ₚ B' → sumDifference eloData A B = sumDifference eloData A' B'.
Proof.
  intros HA HB. unfold sumDifference.
  by rewrite (teamSum_perm _ _ HA), (teamSum_perm _ _ HB).
Qed.

Lemma sumDifference_sym (A B : list Z) :
  sumDifference eloData A B = sumDifference eloData B A.
Proof. unfold sumDifference. lia. Qed.

Lemma eloOf_values (team : list Z) :
  (eloOf eloData team).*2 = getitem eloData <$> team.
Proof. unfold eloOf. rewrite <- list_fmap_compose. done. Qed.

(** The loop body computes [diffOf]. *)
Lemma step_diff (c : list Z) :
  Z.abs (sum (eloOf eloData c).*2
         - sum (eloOf eloData (complement players c)).*2)
  = diffOf eloData c.
Proof. by rewrite !eloOf_values. Qed.

Lemma complement_perm (c : list Z) :
  complement players c ≡ₚ filter (λ p, p ∉ c) players.
Proof. apply sorted_perm. Qed.

(** A candidate side and its complement split the players. *)
Lemma sublist_filter_perm (l c : list Z) :
  NoDup l → c `sublist_of` l → c ++ filter (λ p, p ∉ c) l ≡ₚ l.
Proof.
  intros Hl Hc. apply NoDup_Permutation; [|done|].
  - apply NoDup_app. split_and!.
    + by eapply sublist_NoDup.
    + intros x Hx [Hn _]%list_elem_of_filter. done.
    + by apply NoDup_filter.
  - intros x. rewrite elem_of_app, list_elem_of_filter. split.
    + intros [Hx|[_ Hx]]; [|done].
      by apply (sublist_subseteq _ _ Hc).
    + intros Hx. destruct (decide (x ∈ c)); [by left|by right].
Qed.

Lemma candidate_split (c : list Z) :
  NoDup players → c `sublist_of` players →
  c ++ complement players c ≡ₚ players.
Proof.
  intros Hl Hc. rewrite complement_perm. by apply sublist_filter_perm.
Qed.

(** Every way to split the players into [A] and [B] is met by the
    enumeration, up to the order inside the sides. *)
Lemma partition_enumerated (A B : list Z) :
  NoDup players → A ++ B ≡ₚ players →
  ∃ c, c ∈ combinations players (length A) ∧ c ≡ₚ A
       ∧ complement players c ≡ₚ B.
Proof.
  intros Hl HAB.
  assert (A ⊆+ players) as HA.
  { rewrite <- HAB. by apply submseteq_inserts_r. }
  apply submseteq_sublist_r in HA as (c & HAc & Hc).
  exists c. split_and!.
  - rewrite HAc. by apply sublist_combinations.
  - done.
  - pose proof (candidate_split c Hl Hc) as Hs.
    apply (Permutation_app_inv_l c).
    etrans; [exact Hs|]. etrans; [symmetry; exact HAB|]. by rewrite HAc.
Qed.

(** The key of a matchup names the unordered pair of its sides. *)
Lemma matchupKey_inv (a b a' b' : list Z) :
  matchupKey a b = matchupKey a' b' →
  (a = a' ∧ b = b') ∨ (a = b' ∧ b = a').
Proof.
  unfold matchupKey. simpl.
  destruct (tuple_lt b a), (tuple_lt b' a'); intros [= -> ->]; auto.
Qed.

Lemma matchupKey_diff (c c' : list Z) :
  matchupKey c (complement players c) = matchupKey c' (complement players c') →
  diffOf eloData c = diffOf eloData c'.
Proof.
  intros [[-> _]|[H1 H2]]%matchupKey_inv; [done|].
  unfold diffOf. rewrite H2, <- H1.
  apply sumDifference_sym.
Qed.

Local Abbreviation step := (getTeams_step eloData players).

Lemma firstMinimum_snoc (cs : list (list Z)) (s : Search) (c : list Z)
    (d : Z) :
  firstMinimum eloData cs s → smallestDiff s = Some d → d ≤ diffOf eloData c →
  ∀ sn, firstMinimum eloData (cs ++ [c])
          (mkSearch sn (bestMatchup s) (smallestDiff s)).
Proof.
  intros Hmin Hd Hle sn. destruct cs as [|c1 cs].
  { destruct Hmin as [_ Hn]. congruence. }
  destruct Hmin as (pre & c0 & post & Hcs & Hb & Hs & Hpre & Hpost).
  assert (d = diffOf eloData c0) as -> by congruence.
  change (firstMinimum eloData ((c1 :: cs) ++ [c]) ?s)
    with (∃ pre c0 post,
             (c1 :: cs) ++ [c] = pre ++ c0 :: post
             ∧ bestMatchup s = Some (candidate eloData c0)
             ∧ smallestDiff s = Some (diffOf eloData c0)
             ∧ (∀ c', c' ∈ pre → diffOf eloData c0 < diffOf eloData c')
             ∧ (∀ c', c' ∈ post → diffOf eloData c0 ≤ diffOf eloData c')).
  exists pre, c0, (post ++ [c]). split_and!; try done.
  - rewrite Hcs. by rewrite <- app_assoc.
  - intros c' [?| ->%list_elem_of_singleton]%elem_of_app; auto.
Qed.

Lemma firstMinimum_improve (cs : list (list Z)) (s : Search) (c : list Z) :
  firstMinimum eloData cs s →
  below (diffOf eloData c) (smallestDiff s) = true →
  ∀ sn, firstMinimum eloData (cs ++ [c])
          (mkSearch sn (Some (candidate eloData c))
                    (Some (diffOf eloData c))).
Proof.
  intros Hmin Hlt sn.
  assert (∀ c', c' ∈ cs → diffOf eloData c < diffOf eloData c') as Hall.
  { destruct cs as [|c1 cs]; [by intros ? ?%elem_of_nil|].
    destruct Hmin as (pre & c0 & post & Hcs & Hb & Hs & Hpre & Hpost).
    rewrite Hs in Hlt. simpl in Hlt. apply Z.ltb_lt in Hlt.
    intros c'. rewrite Hcs, elem_of_app, elem_of_cons.
    intros [H|[->|H]]; [specialize (Hpre c' H)| |specialize (Hpost c' H)]; lia. }
  destruct cs as [|c1 cs]; simpl.
  - exists [], c, []. split_and!; try done; by intros ? ?%elem_of_nil.
  - exists (c1 :: cs), c, []. split_and!; try done.
    by intros ? ?%elem_of_nil.
Qed.

(** One iteration keeps what the loop has established. *)
Lemma getTeams_step_inv (cs : list (list Z)) (s : Search) (c : list Z) :
  firstMinimum eloData cs s → seenBound eloData s →
  firstMinimum eloData (cs ++ [c]) (step s c) ∧ seenBound eloData (step s c).
Proof.
  intros Hmin Hseen. unfold getTeams_step.
  case_bool_decide as Hkey.
  - destruct (Hseen c Hkey) as (d & Hd & Hle). split; [|done].
    destruct s as [sn b sd].
    exact (firstMinimum_snoc cs (mkSearch sn b sd) c d Hmin Hd Hle sn).
  - rewrite step_diff.
    destruct (below (diffOf eloData c) (smallestDiff s)) eqn:Hlt.
    + split; [exact (firstMinimum_improve cs s c Hmin Hlt _)|].
      intros c'. simpl. rewrite elem_of_union, elem_of_singleton.
      intros [Hk|Hk].
      * exists (diffOf eloData c). split; [done|].
        by rewrite (matchupKey_diff _ _ Hk).
      * destruct (Hseen c' Hk) as (d & Hd & Hle).
        rewrite Hd in Hlt. simpl in Hlt. apply Z.ltb_lt in Hlt.
        exists (diffOf eloData c). split; [done|lia].
    + destruct (smallestDiff s) as [d|] eqn:Hd; [|done].
      simpl in Hlt. apply Z.ltb_ge in Hlt. split.
      * rewrite <- Hd.
        exact (firstMinimum_snoc cs s c d Hmin Hd Hlt _).
      * intros c'. simpl. rewrite elem_of_union, elem_of_singleton.
        intros [Hk|Hk].
        -- exists d. split; [done|]. by rewrite (matchupKey_diff _ _ Hk).
        -- destruct (Hseen c' Hk) as (d' & Hd' & Hle). exists d'.
           split; [congruence|done].
Qed.

Lemma getTeams_loop_inv (todo : list (list Z)) :
  ∀ (cs : list (list Z)) (s : Search),
    firstMinimum eloData cs s → seenBound eloData s →
    firstMinimum eloData (cs ++ todo) (foldl step s todo).
Proof.
  induction todo as [|c todo IH]; intros cs s Hmin Hseen; simpl.
  - by rewrite app_nil_r.
  - destruct (getTeams_step_inv cs s c Hmin Hseen) as [Hmin' Hseen'].
    specialize (IH (cs ++ [c]) _ Hmin' Hseen').
    by rewrite <- app_assoc in IH.
Qed.

(** [getTeams] returns the first candidate with the least difference. *)
Lemma getTeams_first_minimum :
  ∃ pre c post,
    combinations players (length eloData / 2) = pre ++ c :: post
    ∧ getTeams eloData = Some (candidate eloData c)
    ∧ (∀ c', c' ∈ pre → diffOf eloData c < diffOf eloData c')
    ∧ (∀ c', c' ∈ post → diffOf eloData c ≤ diffOf eloData c').
Proof.
  assert (firstMinimum eloData ([] ++ combinations players (length eloData / 2))
            (foldl step (mkSearch ∅ None None)
                   (combinations players (length eloData / 2)))) as H.
  { apply getTeams_loop_inv; [done|]. by intros c' ?%elem_of_empty. }
  unfold getTeams. rewrite length_fmap. rewrite app_nil_l in H.
  destruct (combinations players (length eloData / 2)) as [|c1 cs] eqn:Hc.
  { exfalso. revert Hc. apply combinations_nonempty.
    rewrite length_fmap. apply Nat.Div0.div_le_upper_bound. lia. }
  unfold firstMinimum in H.
  destruct H as (pre & c & post & Hcs & Hb & _ & Hpre & Hpost).
  exists pre, c, post. by rewrite Hb.
Qed.

End GetTeams.

(** Whatever the number of players, [getTeams] returns a matchup: its red
    side is a combination of [length eloData / 2] players and its blue side
    holds the others. *)
Lemma getTeams_partition (eloData : list (Z * Z)) :
  NoDup eloData.*1 →
  ∃ pre c post,
    combinations eloData.*1 (length eloData / 2) = pre ++ c :: post
    ∧ getTeams eloData = Some (candidate eloData c)
    ∧ (∀ c', c' ∈ pre → diffOf eloData c < diffOf eloData c')
    ∧ (∀ c', c' ∈ post → diffOf eloData c ≤ diffOf eloData c')
    ∧ length c = (length eloData / 2)%nat
    ∧ c ++ complement eloData.*1 c ≡ₚ eloData.*1.
Proof.
  intros Hnd.
  destruct (getTeams_first_minimum eloData)
    as (pre & c & post & Hcs & Hget & Hpre & Hpost).
  exists pre, c, post. split_and!; try done.
  - eapply combinations_sublist. rewrite Hcs. set_solver.
  - apply candidate_split; [done|].
    eapply combinations_sublist. rewrite Hcs. set_solver.
Qed.

(** C1. For a rating map with an even number of participants, [getTeams]
    returns two disjoint sides of [n / 2] participants each that together
    are the participants of the map; no split of the participants into two
    sides of equal size has a smaller absolute difference of rating sums;
    and the red side is the first combination, in the order in which
    [itertools.combinations] enumerates the keys of the map, that attains
    the least difference. *)
Theorem getTeams_balanced (eloData : list (Z * Z)) :
  NoDup eloData.*1 →
  Nat.Even (length eloData) →
  ∃ m pre post,
    getTeams eloData = Some m
    ∧ length (redTeam m) = (length eloData / 2)%nat
    ∧ length (blueTeam m) = (length eloData / 2)%nat
    ∧ (∀ p, p ∈ redTeam m → p ∉ blueTeam m)
    ∧ redTeam m ++ blueTeam m ≡ₚ eloData.*1
    ∧ eloDifference m = sumDifference eloData (redTeam m) (blueTeam m)
    ∧ (∀ A B, A ++ B ≡ₚ eloData.*1 → length A = length B →
              eloDifference m ≤ sumDifference eloData A B)
    ∧ combinations eloData.*1 (length eloData / 2) = pre ++ redTeam m :: post
    ∧ blueTeam m = complement eloData.*1 (redTeam m)
    ∧ (∀ c, c ∈ pre →
            eloDifference m
            < sumDifference eloData c (complement eloData.*1 c)).
Proof.
  intros Hnd [k Hk].
  destruct (getTeams_partition eloData Hnd)
    as (pre & c & post & Hcs & Hget & Hpre & Hpost & Hlen & Hsplit).
  assert (length (c ++ complement eloData.*1 c) = length eloData) as Hl.
  { by rewrite Hsplit, length_fmap. }
  rewrite length_app in Hl.
  assert ((length eloData / 2)%nat = k) as Hhalf.
  { rewrite Hk. rewrite Nat.mul_comm. by apply Nat.div_mul. }
  exists (candidate eloData c), pre, post.
  rewrite Hhalf in *. cbn [redTeam blueTeam eloDifference candidate].
  split_and!; try done.
  - lia.
  - intros p Hp Hp'.
    assert (NoDup (c ++ complement eloData.*1 c)) as Hnd'
      by by rewrite Hsplit.
    apply NoDup_app in Hnd' as (_ & Hdis & _). by apply (Hdis p).
  - intros A B HAB HlenAB.
    destruct (partition_enumerated eloData A B Hnd HAB)
      as (c' & Hc' & HcA & HcB).
    assert (length A = k) as HA.
    { pose proof (Permutation_length HAB) as HL.
      rewrite length_app, length_fmap in HL. lia. }
    rewrite HA, Hcs in Hc'.
    rewrite <- (sumDifference_perm eloData _ _ _ _ HcA HcB).
    change (diffOf eloData c ≤ diffOf eloData c').
    apply elem_of_app in Hc' as [Hc'|[->|Hc']%elem_of_cons].
    + specialize (Hpre c' Hc'). lia.
    + done.
    + by apply Hpost.
Qed.

(** Witness of C1: the four players of the end-to-end scenario. *)
Lemma getTeams_balanced_witness :
  ∃ m pre post,
    getTeams [(1, 120); (2, 100); (3, 100); (4, 80)] = Some m
    ∧ length (redTeam m) = 2%nat
    ∧ length (blueTeam m) = 2%nat
    ∧ (∀ p, p ∈ redTeam m → p ∉ blueTeam m)
    ∧ redTeam m ++ blueTeam m ≡ₚ [1; 2; 3; 4]
    ∧ eloDifference m
      = sumDifference [(1, 120); (2, 100); (3, 100); (4, 80)]
                      (redTeam m) (blueTeam m)
    ∧ (∀ A B, A ++ B ≡ₚ [1; 2; 3; 4] → length A = length B →
              eloDifference m
              ≤ sumDifference [(1, 120); (2, 100); (3, 100); (4, 80)] A B)
    ∧ combinations [1; 2; 3; 4] 2 = pre ++ redTeam m :: post
    ∧ blueTeam m = complement [1; 2; 3; 4] (redTeam m)
    ∧ (∀ c, c ∈ pre →
            eloDifference m
            < sumDifference [(1, 120); (2, 100); (3, 100); (4, 80)] c
                            (complement [1; 2; 3; 4] c)).
Proof.
  apply (getTeams_balanced [(1, 120); (2, 100); (3, 100); (4, 80)]).
  - apply (bool_decide_unpack _). vm_compute. reflexivity.
  - exists 2%nat. reflexivity.
Defined.

(** C6, as the code has it: [getTeams] has no check on the number of
    participants. Given an odd number [n] of participants it returns a
    matchup whose red side has [n / 2] participants (rounded down) and whose
    blue side has the remaining [n / 2 + 1]. *)
Theorem getTeams_odd (eloData : list (Z * Z)) :
  NoDup eloData.*1 →
  Nat.Odd (length eloData) →
  ∃ m,
    getTeams eloData = Some m
    ∧ length (redTeam m) = (length eloData / 2)%nat
    ∧ length (blueTeam m) = (length eloData / 2 + 1)%nat
    ∧ redTeam m ++ blueTeam m ≡ₚ eloData.*1.
Proof.
  intros Hnd [k Hk].
  destruct (getTeams_partition eloData Hnd)
    as (pre & c & post & Hcs & Hget & Hpre & Hpost & Hlen & Hsplit).
  assert (length (c ++ complement eloData.*1 c) = length eloData) as Hl.
  { by rewrite Hsplit, length_fmap. }
  rewrite length_app in Hl.
  assert ((length eloData / 2)%nat = k) as Hhalf.
  { rewrite Hk. rewrite Nat.mul_comm, Nat.add_comm.
    rewrite Nat.div_add by lia. reflexivity. }
  exists (candidate eloData c).
  rewrite Hhalf in *. cbn [redTeam blueTeam candidate].
  split_and!; try done. lia.
Qed.

Lemma getTeams_odd_witness :
  ∃ m,
    getTeams [(1, 120); (2, 100); (3, 80)] = Some m
    ∧ length (redTeam m) = 1%nat
    ∧ length (blueTeam m) = 2%nat
    ∧ redTeam m ++ blueTeam m ≡ₚ [1; 2; 3].
Proof.
  apply (getTeams_odd [(1, 120); (2, 100); (3, 80)]).
  - apply (bool_decide_unpack _). vm_compute. reflexivity.
  - exists 1%nat. reflexivity.
Defined.

(** C6, as stated, fails: three participants are split one against two and
    a matchup is returned. *)
Lemma getTeams_odd_returns :
  Nat.Odd (length [(1, 120); (2, 100); (3, 80)])
  ∧ getTeams [(1, 120); (2, 100); (3, 80)]
    = Some (mkMatchup [1] [2; 3] [(1, 120)] [(2, 100); (3, 80)] 60).
Proof. split; [by exists 1%nat|]. vm_compute. reflexivity. Qed.

(** ** The ledger *)

Section Ledger.
Implicit Types (gs : gmap Z (gmap string Z)) (record : gmap string Z).

Lemma statsComplete_empty : statsComplete ∅.
Proof. intros p record. by rewrite lookup_empty. Qed.

Lemma updateStat_keeps update record kv key :
  is_Some (record !! key) → is_Some (Bot.updateStat update record kv !! key).
Proof.
  intros Hk. unfold Bot.updateStat.
  destruct (record !! kv.1) as [old|] eqn:Hold; [destruct update|];
    (destruct (decide (kv.1 = key)) as [->|Hne];
     [rewrite lookup_insert_eq; eauto|by rewrite lookup_insert_ne]).
Qed.

Lemma updateStats_keeps update stats : ∀ record key,
  is_Some (record !! key) →
  is_Some (foldl (Bot.updateStat update) record stats !! key).
Proof.
  induction stats as [|kv stats IH]; intros record key Hk; simpl; [done|].
  by apply IH, updateStat_keeps.
Qed.

Lemma initialStats_complete :
  is_Some (Bot.initialStats !! "elo") ∧ is_Some (Bot.initialStats !! "wins")
  ∧ is_Some (Bot.initialStats !! "played")
  ∧ is_Some (Bot.initialStats !! "hosted").
Proof. unfold Bot.initialStats. split_and!; by simplify_map_eq. Qed.

(** [updateElo] keeps the ledger complete. *)
Lemma updateElo_complete gs member stats update :
  statsComplete gs → statsComplete (Bot.updateElo gs member stats update).
Proof.
  intros Hc p record. unfold Bot.updateElo.
  destruct (decide (member = p)) as [->|Hne].
  - rewrite lookup_insert_eq. intros [= <-].
    assert (is_Some (default Bot.initialStats (gs !! p) !! "elo")
            ∧ is_Some (default Bot.initialStats (gs !! p) !! "wins")
            ∧ is_Some (default Bot.initialStats (gs !! p) !! "played")
            ∧ is_Some (default Bot.initialStats (gs !! p) !! "hosted"))
      as (?&?&?&?).
    { destruct (gs !! p) as [r|] eqn:Hr; simpl;
        [by apply (Hc p)|apply initialStats_complete]. }
    split_and!; by apply updateStats_keeps.
  - rewrite lookup_insert_ne by done. apply Hc.
Qed.

Lemma updateElo_other gs member stats update p :
  p ≠ member → Bot.updateElo gs member stats update !! p = gs !! p.
Proof. intros Hne. unfold Bot.updateElo. by rewrite lookup_insert_ne. Qed.

Lemma updateStat_add record key old v :
  record !! key = Some old →
  Bot.updateStat true record (key, v) = <[key := old + v]> record.
Proof. intros H. unfold Bot.updateStat. simpl. by rewrite H. Qed.

(** The stats dict of [endMatch] and [swapWinners], applied in [Add] mode,
    adds its three values to the record of the member. *)
Lemma updateElo_result gs member d pl w :
  statsComplete gs →
  let gs' :=
    Bot.updateElo gs member [("elo", d); ("played", pl); ("wins", w)] true in
  rating gs' member = rating gs member + d
  ∧ playedOf gs' member = playedOf gs member + pl
  ∧ winsOf gs' member = winsOf gs member + w.
Proof.
  intros Hc. unfold rating, playedOf, winsOf, Bot.stat, Bot.updateElo.
  rewrite !lookup_insert_eq.
  assert (∃ record e wi pla,
            default Bot.initialStats (gs !! member) = record
            ∧ record !! "elo" = Some e ∧ record !! "wins" = Some wi
            ∧ record !! "played" = Some pla
            ∧ default 100 (gs !! member ≫= λ r, r !! "elo") = e
            ∧ default 0 (gs !! member ≫= λ r, r !! "played") = pla
            ∧ default 0 (gs !! member ≫= λ r, r !! "wins") = wi)
    as (record & e & wi & pla & -> & He & Hw & Hp & -> & -> & ->).
  { destruct (gs !! member) as [record|] eqn:Hr; simpl.
    - destruct (Hc _ _ Hr) as ([e He] & [wi Hw] & [pla Hp] & _).
      exists record, e, wi, pla. by rewrite He, Hw, Hp.
    - by exists Bot.initialStats, 100, 0, 0. }
  cbn [foldl mbind option_bind].
  rewrite (updateStat_add record "elo" e) by done.
  rewrite (updateStat_add _ "played" pla) by by simplify_map_eq.
  rewrite (updateStat_add _ "wins" wi) by by simplify_map_eq.
  by simplify_map_eq.
Qed.

(** The loop over a team: every member is updated once. *)
Lemma applyResults_spec adjustments delta pl w team : ∀ gs,
  NoDup team →
  (∀ p, p ∈ team → is_Some (adjustments !! p)) →
  statsComplete gs →
  ∃ gs',
    Bot.applyResults adjustments delta pl w gs team = (gs', None)
    ∧ statsComplete gs'
    ∧ (∀ p, p ∉ team → gs' !! p = gs !! p)
    ∧ (∀ p a, p ∈ team → adjustments !! p = Some a →
         rating gs' p = rating gs p + delta a
         ∧ playedOf gs' p = playedOf gs p + pl
         ∧ winsOf gs' p = winsOf gs p + w).
Proof.
  induction team as [|m team IH]; intros gs Hnd Hcov Hc; simpl.
  - exists gs. split_and!; try done. by intros p a ?%elem_of_nil.
  - apply NoDup_cons in Hnd as [Hm Hnd].
    destruct (Hcov m) as [a Ha]; [by left|]. rewrite Ha.
    set (gs1 := Bot.updateElo gs m _ true).
    destruct (IH gs1 Hnd) as (gs' & Hrun & Hc' & Hout & Hin).
    { intros p Hp. apply Hcov. by right. }
    { by apply updateElo_complete. }
    exists gs'. split_and!; try done.
    + intros p Hp. apply not_elem_of_cons in Hp as [Hne Hp].
      rewrite (Hout p Hp). by apply updateElo_other.
    + intros p a' [->|Hp]%elem_of_cons Ha'.
      * assert (a' = a) as -> by congruence.
        unfold rating, playedOf, winsOf, Bot.stat. rewrite (Hout m Hm).
        apply (updateElo_result gs m (delta a) pl w Hc).
      * destruct (Hin p a' Hp Ha') as (-> & -> & ->).
        assert (p ≠ m) as Hne by (intros ->; done).
        unfold rating, playedOf, winsOf, Bot.stat, gs1.
        by rewrite updateElo_other.
Qed.

End Ledger.

(** ** Guards of the lifecycle handlers *)

Section Guards.
Implicit Types (st : Bot.State) (cMatch : Bot.Match).

Lemma endMatch_unknown st matchId winner :
  Bot.matches st !! matchId = None →
  Bot.endMatch st matchId winner
  = (st, Bot.Notified Bot.AlreadyEndedOrCancelled).
Proof. intros H. unfold Bot.endMatch. by rewrite H. Qed.

Lemma endMatch_resolved st matchId cMatch w winner :
  Bot.matches st !! matchId = Some cMatch → Bot.who_won cMatch = Some w →
  Bot.endMatch st matchId winner
  = (st, Bot.Notified Bot.AlreadyEndedOrCancelled).
Proof. intros H Hw. unfold Bot.endMatch. by rewrite H, Hw. Qed.

Lemma cancelMatch_unknown st matchId :
  Bot.matches st !! matchId = None →
  Bot.cancelMatch st matchId
  = (st, Bot.Notified Bot.AlreadyEndedOrCancelled).
Proof. intros H. unfold Bot.cancelMatch. by rewrite H. Qed.

Lemma cancelMatch_resolved st matchId cMatch w :
  Bot.matches st !! matchId = Some cMatch → Bot.who_won cMatch = Some w →
  Bot.cancelMatch st matchId
  = (st, Bot.Notified Bot.AlreadyEndedOrCancelled).
Proof. intros H Hw. unfold Bot.cancelMatch. by rewrite H, Hw. Qed.

Lemma cancelMatch_active st matchId cMatch :
  Bot.matches st !! matchId = Some cMatch → Bot.who_won cMatch = None →
  ∃ st', Bot.cancelMatch st matchId = (st', Bot.Completed)
         ∧ Bot.matches st' !! matchId = None
         ∧ Bot.guildStats st' = Bot.guildStats st.
Proof.
  intros H Hw. unfold Bot.cancelMatch. rewrite H, Hw.
  eexists. split_and!; [done| |done]. apply lookup_delete_eq.
Qed.

Lemma swapWinners_unknown st matchId :
  Bot.matches st !! matchId = None →
  Bot.swapWinners st matchId = (st, Bot.Notified Bot.MatchNotFound).
Proof. intros H. unfold Bot.swapWinners. by rewrite H. Qed.

Lemma swapWinners_active st matchId cMatch :
  Bot.matches st !! matchId = Some cMatch → Bot.who_won cMatch = None →
  Bot.swapWinners st matchId = (st, Bot.Notified Bot.MatchStillActive).
Proof. intros H Hw. unfold Bot.swapWinners. by rewrite H, Hw. Qed.

Lemma replace_unknown fk st guildMembers vcOk matchId a b :
  Bot.matches st !! matchId = None →
  Bot.replace fk st guildMembers vcOk matchId a b
  = (st, Bot.Notified Bot.MatchAlreadyEnded).
Proof. intros H. unfold Bot.replace. by rewrite H. Qed.

(** The state test of [replace] reads a key no match has: a match that is
    in the registry is never turned away as ended, resolved or not. *)
Lemma replace_known_not_ended fk st guildMembers vcOk matchId cMatch a b :
  Bot.matches st !! matchId = Some cMatch →
  (Bot.replace fk st guildMembers vcOk matchId a b).2
  ≠ Bot.Notified Bot.MatchAlreadyEnded.
Proof.
  intros H. unfold Bot.replace. rewrite H. simpl.
  repeat (case_match; simpl; try done).
Qed.

End Guards.


(** ** Resolving a match *)

Section Resolve.
Implicit Types (gs : gmap Z (gmap string Z)) (st : Bot.State)
  (cMatch : Bot.Match).

Lemma stats_eq gs gs' p :
  gs' !! p = gs !! p →
  rating gs' p = rating gs p ∧ playedOf gs' p = playedOf gs p
  ∧ winsOf gs' p = winsOf gs p.
Proof.
  intros H. unfold rating, playedOf, winsOf, Bot.stat. by rewrite H.
Qed.

(** The two loops of [endMatch] and [swapWinners] on a match whose rosters
    are disjoint and covered by its predicted deltas. *)
Lemma applyMatch_spec cMatch red blue redDelta blueDelta pl rWin bWin gs :
  NoDup (red ++ blue) →
  (∀ p, p ∈ red →
        is_Some (redAdjustments (Bot.preGameEloCalc cMatch) !! p)) →
  (∀ p, p ∈ blue →
        is_Some (blueAdjustments (Bot.preGameEloCalc cMatch) !! p)) →
  statsComplete gs →
  ∃ gs',
    Bot.applyMatch cMatch red blue redDelta blueDelta pl rWin bWin gs
    = (gs', None)
    ∧ statsComplete gs'
    ∧ (∀ p, p ∉ red → p ∉ blue → gs' !! p = gs !! p)
    ∧ (∀ p a, p ∈ red →
         redAdjustments (Bot.preGameEloCalc cMatch) !! p = Some a →
         rating gs' p = rating gs p + redDelta a
         ∧ playedOf gs' p = playedOf gs p + pl
         ∧ winsOf gs' p = winsOf gs p + rWin)
    ∧ (∀ p a, p ∈ blue →
         blueAdjustments (Bot.preGameEloCalc cMatch) !! p = Some a →
         rating gs' p = rating gs p + blueDelta a
         ∧ playedOf gs' p = playedOf gs p + pl
         ∧ winsOf gs' p = winsOf gs p + bWin).
Proof.
  intros (Hred & Hdis & Hblue)%NoDup_app Hcr Hcb Hc.
  unfold Bot.applyMatch.
  destruct (applyResults_spec
              (redAdjustments (Bot.preGameEloCalc cMatch))
              redDelta pl rWin red gs Hred Hcr Hc)
    as (gs1 & -> & Hc1 & Hout1 & Hin1).
  destruct (applyResults_spec
              (blueAdjustments (Bot.preGameEloCalc cMatch))
              blueDelta pl bWin blue gs1 Hblue Hcb Hc1)
    as (gs2 & -> & Hc2 & Hout2 & Hin2).
  exists gs2. split_and!; try done.
  - intros p Hr Hb. by rewrite Hout2, Hout1.
  - intros p a Hp Ha.
    destruct (stats_eq gs1 gs2 p (Hout2 p (Hdis p Hp))) as (-> & -> & ->).
    by apply Hin1.
  - intros p a Hp Ha.
    destruct (Hin2 p a Hp Ha) as (-> & -> & ->).
    assert (p ∉ red) as Hnr by (intros Hr; by apply (Hdis p)).
    by destruct (stats_eq gs gs1 p (Hout1 p Hnr)) as (-> & -> & ->).
Qed.

(** What [endMatch] does to an active match whose rosters are disjoint and
    covered by its frozen prediction. *)
Lemma endMatch_effect st matchId cMatch (winner : Z) :
  Bot.matches st !! matchId = Some cMatch →
  Bot.who_won cMatch = None →
  NoDup (Bot.roster st (Bot.redTeam cMatch)
         ++ Bot.roster st (Bot.blueTeam cMatch)) →
  deltasCoverRoster st cMatch →
  statsComplete (Bot.guildStats st) →
  ∃ gs',
    Bot.endMatch st matchId winner
    = (Bot.mkState
         (<[matchId := Bot.set_who_won cMatch (Some winner)]> (Bot.matches st))
         gs' (Bot.lists st) (Bot.voicePresence st) (Bot.penaltyData st),
       Bot.Completed)
    ∧ statsComplete gs'
    ∧ (∀ p a, p ∈ Bot.roster st (Bot.redTeam cMatch) →
         redAdjustments (Bot.preGameEloCalc cMatch) !! p = Some a →
         rating gs' p
         = rating (Bot.guildStats st) p
           + (if bool_decide (winner = 0) then won a else loss a)
         ∧ playedOf gs' p = playedOf (Bot.guildStats st) p + 1
         ∧ winsOf gs' p
           = winsOf (Bot.guildStats st) p
             + (if bool_decide (winner = 0) then 1 else 0))
    ∧ (∀ p a, p ∈ Bot.roster st (Bot.blueTeam cMatch) →
         blueAdjustments (Bot.preGameEloCalc cMatch) !! p = Some a →
         rating gs' p
         = rating (Bot.guildStats st) p
           + (if bool_decide (winner = 0) then loss a else won a)
         ∧ playedOf gs' p = playedOf (Bot.guildStats st) p + 1
         ∧ winsOf gs' p
           = winsOf (Bot.guildStats st) p
             + (if bool_decide (winner = 0) then 0 else 1)).
Proof.
  intros Hm Hw Hnd [Hcr Hcb] Hc.
  unfold Bot.endMatch. rewrite Hm, Hw.
  set (st1 := Bot.set_matches st _).
  case_bool_decide as Hwin.
  - destruct (applyMatch_spec cMatch _ _ won loss 1 1 0 (Bot.guildStats st1)
                Hnd Hcr Hcb Hc) as (gs' & Hrun & Hc' & _ & Hr & Hb).
    rewrite Hrun. by exists gs'.
  - destruct (applyMatch_spec cMatch _ _ loss won 1 0 1 (Bot.guildStats st1)
                Hnd Hcr Hcb Hc) as (gs' & Hrun & Hc' & _ & Hr & Hb).
    rewrite Hrun. by exists gs'.
Qed.

(** What [swapWinners] does to a resolved match: the winner is flipped,
    every participant's rating moves by twice the frozen delta of the new
    outcome, [wins] moves by 1 up or down and [played] stays. *)
Lemma swapWinners_doubles st matchId cMatch (w : Z) :
  Bot.matches st !! matchId = Some cMatch →
  Bot.who_won cMatch = Some w →
  NoDup (Bot.roster st (Bot.redTeam cMatch)
         ++ Bot.roster st (Bot.blueTeam cMatch)) →
  deltasCoverRoster st cMatch →
  statsComplete (Bot.guildStats st) →
  let newWinner := if bool_decide (w = 1) then 0 else 1 in
  ∃ gs',
    Bot.swapWinners st matchId
    = (Bot.mkState
         (<[matchId := Bot.set_who_won cMatch (Some newWinner)]>
            (Bot.matches st))
         gs' (Bot.lists st) (Bot.voicePresence st) (Bot.penaltyData st),
       Bot.Completed)
    ∧ statsComplete gs'
    ∧ (∀ p a, p ∈ Bot.roster st (Bot.redTeam cMatch) →
         redAdjustments (Bot.preGameEloCalc cMatch) !! p = Some a →
         rating gs' p
         = rating (Bot.guildStats st) p
           + (if bool_decide (newWinner = 0) then won a else loss a) * 2
         ∧ playedOf gs' p = playedOf (Bot.guildStats st) p
         ∧ winsOf gs' p
           = winsOf (Bot.guildStats st) p
             + (if bool_decide (newWinner = 0) then 1 else -1))
    ∧ (∀ p a, p ∈ Bot.roster st (Bot.blueTeam cMatch) →
         blueAdjustments (Bot.preGameEloCalc cMatch) !! p = Some a →
         rating gs' p
         = rating (Bot.guildStats st) p
           + (if bool_decide (newWinner = 0) then loss a else won a) * 2
         ∧ playedOf gs' p = playedOf (Bot.guildStats st) p
         ∧ winsOf gs' p
           = winsOf (Bot.guildStats st) p
             + (if bool_decide (newWinner = 0) then -1 else 1)).
Proof.
  intros Hm Hw Hnd [Hcr Hcb] Hc newWinner.
  unfold Bot.swapWinners. rewrite Hm, Hw. fold newWinner.
  set (st1 := Bot.set_matches st _).
  case_bool_decide as Hwin.
  - destruct (applyMatch_spec cMatch _ _ (λ a, won a * 2) (λ a, loss a * 2)
                0 1 (-1) (Bot.guildStats st1) Hnd Hcr Hcb Hc)
      as (gs' & Hrun & Hc' & _ & Hr & Hb).
    rewrite Hrun. exists gs'.
    change (Bot.guildStats st1) with (Bot.guildStats st) in Hr, Hb.
    split_and!; try done.
    + intros p a Hp Ha. destruct (Hr p a Hp Ha) as (-> & -> & ->).
      split_and!; lia.
    + intros p a Hp Ha. destruct (Hb p a Hp Ha) as (-> & -> & ->).
      split_and!; lia.
  - destruct (applyMatch_spec cMatch _ _ (λ a, loss a * 2) (λ a, won a * 2)
                0 (-1) 1 (Bot.guildStats st1) Hnd Hcr Hcb Hc)
      as (gs' & Hrun & Hc' & _ & Hr & Hb).
    rewrite Hrun. exists gs'.
    change (Bot.guildStats st1) with (Bot.guildStats st) in Hr, Hb.
    split_and!; try done.
    + intros p a Hp Ha. destruct (Hr p a Hp Ha) as (-> & -> & ->).
      split_and!; lia.
    + intros p a Hp Ha. destruct (Hb p a Hp Ha) as (-> & -> & ->).
      split_and!; lia.
Qed.

(** Resolving a match and swapping its winner, against resolving it for
    the other side at once: the ratings differ by [won + loss] of the
    participant, so they agree exactly for the participants whose two
    frozen deltas are opposite; [wins] and [played] agree. *)
Lemma resolve_then_swap st matchId cMatch (w : Z) :
  Bot.matches st !! matchId = Some cMatch →
  Bot.who_won cMatch = None →
  NoDup (Bot.roster st (Bot.redTeam cMatch)
         ++ Bot.roster st (Bot.blueTeam cMatch)) →
  deltasCoverRoster st cMatch →
  statsComplete (Bot.guildStats st) →
  w = 0 ∨ w = 1 →
  let swapped :=
    Bot.guildStats (Bot.swapWinners (Bot.endMatch st matchId w).1 matchId).1 in
  let direct := Bot.guildStats (Bot.endMatch st matchId (1 - w)).1 in
  ∀ p a,
    (p ∈ Bot.roster st (Bot.redTeam cMatch)
     ∧ redAdjustments (Bot.preGameEloCalc cMatch) !! p = Some a)
    ∨ (p ∈ Bot.roster st (Bot.blueTeam cMatch)
       ∧ blueAdjustments (Bot.preGameEloCalc cMatch) !! p = Some a) →
    rating swapped p = rating direct p + (won a + loss a)
    ∧ playedOf swapped p = playedOf direct p
    ∧ winsOf swapped p = winsOf direct p.
Proof.
  intros Hm Hw Hnd Hcov Hc Hw01 swapped direct.
  destruct (endMatch_effect st matchId cMatch w Hm Hw Hnd Hcov Hc)
    as (gs1 & Hrun1 & Hc1 & Hr1 & Hb1).
  destruct (endMatch_effect st matchId cMatch (1 - w) Hm Hw Hnd Hcov Hc)
    as (gs2 & Hrun2 & _ & Hr2 & Hb2).
  set (st1 := (Bot.endMatch st matchId w).1) in *.
  assert (Bot.matches st1 !! matchId
          = Some (Bot.set_who_won cMatch (Some w))) as Hm1.
  { unfold st1. rewrite Hrun1. apply lookup_insert_eq. }
  assert (Bot.lists st1 = Bot.lists st) as Hl1.
  { unfold st1. by rewrite Hrun1. }
  assert (Bot.guildStats st1 = gs1) as Hg1.
  { unfold st1. by rewrite Hrun1. }
  assert (∀ l, Bot.roster st1 l = Bot.roster st l) as Hro.
  { intros l. unfold Bot.roster. by rewrite Hl1. }
  destruct (swapWinners_doubles st1 matchId
              (Bot.set_who_won cMatch (Some w)) w Hm1 eq_refl)
    as (gs3 & Hrun3 & _ & Hr3 & Hb3).
  { simpl. by rewrite !Hro. }
  { destruct Hcov as [Hcr Hcb].
    split; intros p Hp; simpl in *; rewrite Hro in Hp; auto. }
  { by rewrite Hg1. }
  assert (swapped = gs3) as -> by (unfold swapped; by rewrite Hrun3).
  assert (direct = gs2) as -> by (unfold direct; by rewrite Hrun2).
  simpl in Hr3, Hb3. rewrite Hg1 in Hr3, Hb3.
  intros p a [[Hp Ha]|[Hp Ha]].
  - rewrite <- Hro in Hp.
    destruct (Hr3 p a Hp Ha) as (-> & -> & ->). rewrite Hro in Hp.
    destruct (Hr1 p a Hp Ha) as (-> & -> & ->).
    destruct (Hr2 p a Hp Ha) as (-> & -> & ->).
    destruct Hw01 as [-> | ->]; simpl; split_and!; lia.
  - rewrite <- Hro in Hp.
    destruct (Hb3 p a Hp Ha) as (-> & -> & ->). rewrite Hro in Hp.
    destruct (Hb1 p a Hp Ha) as (-> & -> & ->).
    destruct (Hb2 p a Hp Ha) as (-> & -> & ->).
    destruct Hw01 as [-> | ->]; simpl; split_and!; lia.
Qed.

(** C2. Resolving an active match whose rosters are disjoint and covered
    by its frozen prediction adds to every participant's rating the frozen
    [won] value if the participant's side wins and the frozen [loss] value
    otherwise, adds 1 to [played], and adds 1 to [wins] exactly for the
    winning side (red when [winner = 0], blue otherwise). A second
    [endMatch] on the same match, whatever winner it names, is answered
    with the "already ended" notice and leaves the state as it is. *)
Theorem endMatch_once st matchId cMatch (winner : Z) :
  Bot.matches st !! matchId = Some cMatch →
  Bot.who_won cMatch = None →
  NoDup (Bot.roster st (Bot.redTeam cMatch)
         ++ Bot.roster st (Bot.blueTeam cMatch)) →
  deltasCoverRoster st cMatch →
  statsComplete (Bot.guildStats st) →
  ∃ st',
    Bot.endMatch st matchId winner = (st', Bot.Completed)
    ∧ (∀ p a, p ∈ Bot.roster st (Bot.redTeam cMatch) →
         redAdjustments (Bot.preGameEloCalc cMatch) !! p = Some a →
         rating (Bot.guildStats st') p
         = rating (Bot.guildStats st) p
           + (if bool_decide (winner = 0) then won a else loss a)
         ∧ playedOf (Bot.guildStats st') p
           = playedOf (Bot.guildStats st) p + 1
         ∧ winsOf (Bot.guildStats st') p
           = winsOf (Bot.guildStats st) p
             + (if bool_decide (winner = 0) then 1 else 0))
    ∧ (∀ p a, p ∈ Bot.roster st (Bot.blueTeam cMatch) →
         blueAdjustments (Bot.preGameEloCalc cMatch) !! p = Some a →
         rating (Bot.guildStats st') p
         = rating (Bot.guildStats st) p
           + (if bool_decide (winner = 0) then loss a else won a)
         ∧ playedOf (Bot.guildStats st') p
           = playedOf (Bot.guildStats st) p + 1
         ∧ winsOf (Bot.guildStats st') p
           = winsOf (Bot.guildStats st) p
             + (if bool_decide (winner = 0) then 0 else 1))
    ∧ (∀ winner',
         Bot.endMatch st' matchId winner'
         = (st', Bot.Notified Bot.AlreadyEndedOrCancelled)).
Proof.
  intros Hm Hw Hnd Hcov Hc.
  destruct (endMatch_effect st matchId cMatch winner Hm Hw Hnd Hcov Hc)
    as (gs' & Hrun & _ & Hr & Hb).
  eexists. split; [exact Hrun|]. split_and!; try done.
  intros winner'.
  apply (endMatch_resolved _ _ (Bot.set_who_won cMatch (Some winner)) winner);
    [apply lookup_insert_eq|done].
Qed.

End Resolve.

(** Witness of C2: the duel, won by red. *)
Lemma endMatch_once_witness :
  ∃ st',
    Bot.endMatch duelState "dUeL01" 0 = (st', Bot.Completed)
    ∧ (∀ p a, p ∈ Bot.roster duelState (Bot.redTeam duel) →
         redAdjustments (Bot.preGameEloCalc duel) !! p = Some a →
         rating (Bot.guildStats st') p
         = rating (Bot.guildStats duelState) p
           + (if bool_decide (0 = 0) then won a else loss a)
         ∧ playedOf (Bot.guildStats st') p
           = playedOf (Bot.guildStats duelState) p + 1
         ∧ winsOf (Bot.guildStats st') p
           = winsOf (Bot.guildStats duelState) p
             + (if bool_decide (0 = 0) then 1 else 0))
    ∧ (∀ p a, p ∈ Bot.roster duelState (Bot.blueTeam duel) →
         blueAdjustments (Bot.preGameEloCalc duel) !! p = Some a →
         rating (Bot.guildStats st') p
         = rating (Bot.guildStats duelState) p
           + (if bool_decide (0 = 0) then loss a else won a)
         ∧ playedOf (Bot.guildStats st') p
           = playedOf (Bot.guildStats duelState) p + 1
         ∧ winsOf (Bot.guildStats st') p
           = winsOf (Bot.guildStats duelState) p
             + (if bool_decide (0 = 0) then 0 else 1))
    ∧ (∀ winner',
         Bot.endMatch st' "dUeL01" winner'
         = (st', Bot.Notified Bot.AlreadyEndedOrCancelled)).
Proof.
  apply (endMatch_once duelState "dUeL01" duel 0).
  - vm_compute. reflexivity.
  - reflexivity.
  - apply (bool_decide_unpack _). vm_compute. reflexivity.
  - split; intros p Hp; vm_compute in Hp;
      apply list_elem_of_singleton in Hp as ->; vm_compute; eauto.
  - apply (bool_decide_unpack _). vm_compute. reflexivity.
Defined.

(** The ratings the duel ends with when red wins. *)
Example endMatch_duel :
  let st' := (Bot.endMatch duelState "dUeL01" 0).1 in
  rating (Bot.guildStats st') 1 = 134 ∧ rating (Bot.guildStats st') 2 = 86
  ∧ playedOf (Bot.guildStats st') 1 = 1 ∧ playedOf (Bot.guildStats st') 2 = 1
  ∧ winsOf (Bot.guildStats st') 1 = 1 ∧ winsOf (Bot.guildStats st') 2 = 0.
Proof. vm_compute. repeat split. Qed.

(** ** Swapping the winner *)

(** C3, at the duel. Red wins and the winner is swapped: participant 1
    ends at 120 + 14 - 32 = 102 and participant 2 at 100 - 14 + 32 = 118.
    Had blue been declared the winner at once, participant 1 would be at
    120 - 16 = 104 and participant 2 at 100 + 16 = 116. The winner, [wins]
    and [played] do agree. *)
Theorem swapWinners_drift :
  let resolved := (Bot.endMatch duelState "dUeL01" 0).1 in
  let swapped := (Bot.swapWinners resolved "dUeL01").1 in
  let direct := (Bot.endMatch duelState "dUeL01" 1).1 in
  (Bot.endMatch duelState "dUeL01" 0).2 = Bot.Completed
  ∧ (Bot.swapWinners resolved "dUeL01").2 = Bot.Completed
  ∧ (Bot.endMatch duelState "dUeL01" 1).2 = Bot.Completed
  ∧ Bot.who_won <$> Bot.matches swapped !! "dUeL01" = Some (Some 1)
  ∧ Bot.who_won <$> Bot.matches direct !! "dUeL01" = Some (Some 1)
  ∧ rating (Bot.guildStats swapped) 1 = 102
  ∧ rating (Bot.guildStats direct) 1 = 104
  ∧ rating (Bot.guildStats swapped) 2 = 118
  ∧ rating (Bot.guildStats direct) 2 = 116
  ∧ winsOf (Bot.guildStats swapped) 1 = winsOf (Bot.guildStats direct) 1
  ∧ winsOf (Bot.guildStats swapped) 2 = winsOf (Bot.guildStats direct) 2
  ∧ playedOf (Bot.guildStats swapped) 1 = playedOf (Bot.guildStats direct) 1
  ∧ playedOf (Bot.guildStats swapped) 2 = playedOf (Bot.guildStats direct) 2.
Proof. vm_compute. repeat split. Qed.

(** ** Replacing a player *)

(** Splits a membership in a concrete list into its cases. *)
Ltac roster_cases Hp :=
  vm_compute in Hp;
  repeat (apply elem_of_cons in Hp as [->|Hp]);
  [..|by apply elem_of_nil in Hp].

(** C4, at a two-a-side match. [startMatch] puts members 1 and 2 on the red
    roster and 3 and 4 on the blue one, and the predicted deltas cover both
    rosters. Member 2 is then replaced by member 5. [replace] takes 2 out of
    the red list object, and as 2 is no longer in it, stores that same
    object as the blue roster: both rosters are now the list [1; 5].
    [getTeams] is run on the two participants left, and the new deltas have
    1 on the red side and 5 on the blue side: member 5 of the red roster has
    no red entry, and [endMatch] raises [KeyError]. *)
Theorem replace_breaks_cover (fk : FloatKernel) :
  let created :=
    Bot.startMatch fk freshState lobby (Bot.mkMember 1 false) 2 "m4tch1" in
  let replaced :=
    Bot.replace fk created.1 guild true "m4tch1" (Some 2) (Some 5) in
  created.2 = Bot.Completed
  ∧ (∃ m0, Bot.matches created.1 !! "m4tch1" = Some m0
           ∧ Bot.roster created.1 (Bot.redTeam m0) = [1; 2]
           ∧ Bot.roster created.1 (Bot.blueTeam m0) = [3; 4]
           ∧ deltasCoverRoster created.1 m0)
  ∧ replaced.2 = Bot.Completed
  ∧ (∃ m1, Bot.matches replaced.1 !! "m4tch1" = Some m1
           ∧ Bot.redTeam m1 = Bot.blueTeam m1
           ∧ Bot.roster replaced.1 (Bot.redTeam m1) = [1; 5]
           ∧ Bot.roster replaced.1 (Bot.blueTeam m1) = [1; 5]
           ∧ redAdjustments (Bot.preGameEloCalc m1) !! 5 = None
           ∧ blueAdjustments (Bot.preGameEloCalc m1) !! 1 = None
           ∧ ¬ deltasCoverRoster replaced.1 m1)
  ∧ (Bot.endMatch replaced.1 "m4tch1" 0).2 = Bot.Raised Bot.KeyError.
Proof.
  intros created replaced. split_and!.
  - vm_compute. reflexivity.
  - eexists. split; [vm_compute; reflexivity|].
    split_and!; [vm_compute; reflexivity..|].
    split; intros p Hp; roster_cases Hp; vm_compute; eauto.
  - vm_compute. reflexivity.
  - eexists. split; [vm_compute; reflexivity|].
    split_and!; [vm_compute; reflexivity..|].
    intros [Hred _]. destruct (Hred 5) as [a Ha].
    + vm_compute. set_solver.
    + vm_compute in Ha. discriminate.
  - vm_compute. reflexivity.
Qed.

(** The other way [replace] breaks the cover, with the rosters kept apart.
    Members 1 to 4, rated 120, 80, 100 and 100, are matched as 1 and 2
    against 3 and 4. Member 4 is replaced by member 5, rated 140. [replace]
    calls [getTeams] on the new roster, which balances it afresh as 1 and 3
    against 2 and 5, and stores the deltas of that matchup; the rosters
    stay 1 and 2 against 3 and 5. *)
Lemma replace_rebalances (fk : FloatKernel) :
  let created :=
    Bot.startMatch fk ratedState lobby (Bot.mkMember 1 false) 2 "m4tch1" in
  let replaced :=
    Bot.replace fk created.1 guild true "m4tch1" (Some 4) (Some 5) in
  created.2 = Bot.Completed
  ∧ replaced.2 = Bot.Completed
  ∧ (∃ m1, Bot.matches replaced.1 !! "m4tch1" = Some m1
           ∧ Bot.roster replaced.1 (Bot.redTeam m1) = [1; 2]
           ∧ Bot.roster replaced.1 (Bot.blueTeam m1) = [3; 5]
           ∧ dom (redAdjustments (Bot.preGameEloCalc m1)) = {[ 1; 3 ]}
           ∧ dom (blueAdjustments (Bot.preGameEloCalc m1)) = {[ 2; 5 ]}
           ∧ ¬ deltasCoverRoster replaced.1 m1)
  ∧ (Bot.endMatch replaced.1 "m4tch1" 0).2 = Bot.Raised Bot.KeyError.
Proof.
  intros created replaced. split_and!.
  - vm_compute. reflexivity.
  - vm_compute. reflexivity.
  - eexists. split; [vm_compute; reflexivity|].
    split_and!; [vm_compute; reflexivity..|].
    intros [Hred _]. destruct (Hred 2) as [a Ha].
    + vm_compute. set_solver.
    + vm_compute in Ha. discriminate.
  - vm_compute. reflexivity.
Qed.

(** C5, at a resolved match. The match of [lobby] is created and resolved
    for red, so [who won] is set. [replace] is then asked to put member 5
    in the place of member 3. It does not answer that the match has ended:
    it rewrites the blue roster, and only stops when the platform refuses
    to edit the voice channel that [endMatch] has deleted. *)
Theorem replace_after_resolve (fk : FloatKernel) :
  let created :=
    Bot.startMatch fk freshState lobby (Bot.mkMember 1 false) 2 "m4tch1" in
  let resolved := Bot.endMatch created.1 "m4tch1" 0 in
  let replaced :=
    Bot.replace fk resolved.1 guild false "m4tch1" (Some 3) (Some 5) in
  resolved.2 = Bot.Completed
  ∧ (∃ m, Bot.matches resolved.1 !! "m4tch1" = Some m
          ∧ Bot.who_won m = Some 0
          ∧ Bot.roster resolved.1 (Bot.blueTeam m) = [3; 4]
          ∧ Bot.roster replaced.1 (Bot.blueTeam m) = [4; 5])
  ∧ replaced.2 = Bot.Notified Bot.FailedToMove
  ∧ replaced.1 ≠ resolved.1
  ∧ Bot.endMatch resolved.1 "m4tch1" 1
    = (resolved.1, Bot.Notified Bot.AlreadyEndedOrCancelled).
Proof.
  intros created resolved replaced.
  assert (Bot.lists replaced.1 !! 2%positive = Some [4; 5]) as Hnew
    by (vm_compute; reflexivity).
  assert (Bot.lists resolved.1 !! 2%positive = Some [3; 4]) as Hold
    by (vm_compute; reflexivity).
  split_and!.
  - vm_compute. reflexivity.
  - eexists. split; [vm_compute; reflexivity|].
    split_and!; vm_compute; reflexivity.
  - vm_compute. reflexivity.
  - intros Heq. rewrite Heq in Hnew. rewrite Hnew in Hold. discriminate.
  - eapply endMatch_resolved; vm_compute; reflexivity.
Qed.

(** ** Durations and penalties *)

Section Duration.


(** The units [findall] reports are the four of the pattern. *)
Lemma findall_units (s : list ascii) : ∀ run au,
  au ∈ Bot.findall s run → Bot.is_unit au.2 = true.
Proof.
  induction s as [|c s IH]; intros run au; simpl.
  - by intros ?%elem_of_nil.
  - destruct (is_digit c); [by apply IH|].
    destruct (Bot.is_unit c && negb (bool_decide (run = []))) eqn:Hc.
    + intros [->|Hau]%elem_of_cons; [|by eapply IH].
      simpl. by apply andb_true_iff in Hc as [-> _].
    + by apply IH.
Qed.


End Duration.



Example parse_duration_mixed :
  Bot.parse_duration "1d 2h 30m" = 95400
  ∧ Bot.parse_duration "1m 30s" = 60
  ∧ Bot.parse_duration "2H" = 7200
  ∧ Bot.parse_duration "45" = 0.
Proof. vm_compute. repeat split. Qed.

(** A duration with a unit that counts is accepted and recorded. *)
Example penalty_minutes (now : Z) :
  Bot.penalty freshState true (Some 77) true false 3 "10m" now
  = (Bot.set_penaltyData freshState {[ 3 := [(now, 600)] ]}, Bot.Completed).
Proof. reflexivity. Qed.

(** ** Choosing the members of a match *)

Section Select.
Context {A : Type}.
Implicit Types (l : list A) (x y : A).

(** [sorted] puts a list in order, for a comparison that is a strict weak
    order. *)
Lemma insert_sorted_StronglySorted (lt : A → A → bool) x l :
  (∀ a b, lt a b = true → lt b a = false) →
  (∀ a b c, lt b a = false → lt c b = false → lt c a = false) →
  StronglySorted (λ a b, lt b a = false) l →
  StronglySorted (λ a b, lt b a = false) (insert_sorted lt x l).
Proof.
  intros Hasym Htrans. induction l as [|y l IH]; intros Hs; simpl.
  - repeat constructor.
  - apply StronglySorted_cons in Hs as [Hy Hs].
    destruct (lt y x) eqn:Hyx.
    + apply StronglySorted_cons. split; [|by apply IH].
      apply Forall_forall. intros z Hz.
      rewrite insert_sorted_perm in Hz.
      apply elem_of_cons in Hz as [->|Hz]; [by apply Hasym|].
      by eapply Forall_forall in Hy.
    + apply StronglySorted_cons. split.
      * constructor; [done|].
        eapply Forall_impl; [exact Hy|]. intros z Hz. simpl in *.
        by apply (Htrans x y z).
      * by apply StronglySorted_cons.
Qed.

Lemma sorted_StronglySorted (lt : A → A → bool) l :
  (∀ a b, lt a b = true → lt b a = false) →
  (∀ a b c, lt b a = false → lt c b = false → lt c a = false) →
  StronglySorted (λ a b, lt b a = false) (sorted lt l).
Proof.
  intros Hasym Htrans. induction l as [|x l IH]; simpl; [constructor|].
  by apply insert_sorted_StronglySorted.
Qed.

Lemma list_remove_subseteq (eqb : A → A → bool) x l :
  list_remove eqb x l ⊆ l.
Proof.
  induction l as [|y l IH]; simpl; [done|].
  destruct (eqb y x).
  - intros z Hz. by right.
  - intros z [->|Hz]%elem_of_cons; [by left|right; by apply IH].
Qed.

Lemma list_remove_StronglySorted (R : A → A → Prop) (eqb : A → A → bool) x l :
  StronglySorted R l → StronglySorted R (list_remove eqb x l).
Proof.
  induction l as [|y l IH]; simpl; [done|].
  intros Hs. apply StronglySorted_cons in Hs as [Hy Hs].
  destruct (eqb y x); [done|].
  apply StronglySorted_cons. split; [|by apply IH].
  apply Forall_forall. intros z Hz%list_remove_subseteq.
  by eapply Forall_forall in Hy.
Qed.

(** Removing [x] from a list in which [x] is the only element equal to it
    takes out [x] itself. *)
Lemma list_remove_perm (eqb : A → A → bool) x l :
  eqb x x = true →
  x ∈ l → (∀ y, y ∈ l → eqb y x = true → y = x) →
  x :: list_remove eqb x l ≡ₚ l.
Proof.
  intros Hrefl. induction l as [|y l IH]; simpl; [by intros ?%elem_of_nil|].
  intros Hx Huniq. destruct (eqb y x) eqn:Hyx.
  - rewrite (Huniq y); [done|by left|done].
  - rewrite Permutation_swap. f_equiv. apply IH.
    + apply elem_of_cons in Hx as [->|Hx]; [congruence|done].
    + intros z Hz. apply Huniq. by right.
Qed.

End Select.

Section Start.
Implicit Types (queueMembers : list Bot.Member) (user : Bot.Member).

(** The loop that is meant to drop the bots raises as soon as it meets
    one. *)
Lemma removeBots_raises queueMembers :
  (∃ m, m ∈ queueMembers ∧ Bot.bot m = true) →
  Bot.removeBots queueMembers = Some Bot.TypeError.
Proof.
  intros (m & Hm & Hbot). induction queueMembers as [|x l IH]; simpl.
  - by apply elem_of_nil in Hm.
  - destruct (Bot.bot x) eqn:Hx; [done|].
    apply elem_of_cons in Hm as [->|Hm]; [congruence|by apply IH].
Qed.

Lemma removeBots_none queueMembers :
  (∀ m, m ∈ queueMembers → Bot.bot m = false) →
  Bot.removeBots queueMembers = None.
Proof.
  induction queueMembers as [|x l IH]; intros Hno; simpl; [done|].
  rewrite (Hno x) by by left. apply IH. intros m Hm. apply Hno. by right.
Qed.

(** With a bot in the queue no member is chosen and no match is made,
    however many other members wait. *)
Lemma startMatch_bot_raises fk st queueMembers user matchType matchId :
  (∃ m, m ∈ queueMembers ∧ Bot.bot m = true) →
  Bot.selectMembers (Bot.voicePresence st) queueMembers user matchType
  = inl (Bot.Raised Bot.TypeError)
  ∧ Bot.startMatch fk st queueMembers user matchType matchId
    = (st, Bot.Raised Bot.TypeError).
Proof.
  intros Hbot. unfold Bot.startMatch, Bot.selectMembers.
  by rewrite (removeBots_raises _ Hbot).
Qed.

Lemma joinTime_lt_asym (a b : option Z) :
  Bot.joinTime_lt a b = true → Bot.joinTime_lt b a = false.
Proof. destruct a, b; simpl; try done. lia. Qed.

Lemma joinTime_lt_trans (a b c : option Z) :
  Bot.joinTime_lt b a = false → Bot.joinTime_lt c b = false →
  Bot.joinTime_lt c a = false.
Proof. destruct a, b, c; simpl; try done. lia. Qed.

(** Without bots in the queue, the selection is as stated: the host comes
    first, and the other places go to the members that joined the queue
    first, in the order in which they joined; a member with no recorded
    join time comes after those that have one. *)
Lemma selectMembers_no_bots (voiceData : gmap Z Z) queueMembers user
    (matchType : Z) :
  (∀ m, m ∈ queueMembers → Bot.bot m = false) →
  NoDup (Bot.id <$> queueMembers) →
  user ∈ queueMembers →
  1 ≤ matchType →
  matchType * 2 ≤ Z.of_nat (length queueMembers) →
  ∃ chosen left,
    Bot.selectMembers voiceData queueMembers user matchType
    = inr (user :: chosen)
    ∧ Z.of_nat (length (user :: chosen)) = matchType * 2
    ∧ user :: chosen ++ left ≡ₚ queueMembers
    ∧ StronglySorted (joinedNoLater voiceData) (chosen ++ left)
    ∧ (∀ m, m ∈ user :: chosen → Bot.bot m = false).
Proof.
  intros Hno Hnd Huser Hone Hlen.
  unfold Bot.selectMembers. rewrite (removeBots_none _ Hno).
  destruct (Z.ltb_spec (Z.of_nat (length queueMembers)) (matchType * 2));
    [lia|].
  assert (existsb (λ m, Bot.member_eqb m user) queueMembers = true) as ->.
  { apply existsb_exists. exists user. split; [by apply list_elem_of_In|].
    unfold Bot.member_eqb. by apply bool_decide_eq_true. }
  simpl.
  set (byWait := sorted _ queueMembers).
  set (others := list_remove Bot.member_eqb user byWait).
  assert (byWait ≡ₚ queueMembers) as Hperm by apply sorted_perm.
  assert (user :: others ≡ₚ queueMembers) as Hperm'.
  { rewrite <- Hperm. apply list_remove_perm.
    - unfold Bot.member_eqb. by apply bool_decide_eq_true.
    - by rewrite Hperm.
    - intros y Hy Heq. unfold Bot.member_eqb in Heq.
      apply bool_decide_eq_true in Heq. rewrite Hperm in Hy.
      apply list_elem_of_lookup in Hy as [i Hi].
      apply list_elem_of_lookup in Huser as [j Hj].
      assert (i = j) as ->; [|congruence].
      eapply (NoDup_lookup _ _ _ _ Hnd);
        rewrite list_lookup_fmap; [by rewrite Hi|by rewrite Hj, Heq]. }
  assert (StronglySorted (joinedNoLater voiceData) others) as Hsorted.
  { apply list_remove_StronglySorted.
    apply (sorted_StronglySorted
             (λ a b, Bot.joinTime_lt (voiceData !! Bot.id a)
                                     (voiceData !! Bot.id b))).
    - intros a b. apply joinTime_lt_asym.
    - intros a b c. apply joinTime_lt_trans. }
  destruct (Z.to_nat (matchType * 2)) as [|n] eqn:Hn; [lia|].
  cbn [take].
  exists (take n others), (drop n others).
  pose proof (Permutation_length Hperm') as Hl. simpl in Hl.
  split_and!.
  - done.
  - simpl. rewrite length_take. lia.
  - by rewrite take_drop.
  - by rewrite take_drop.
  - intros m Hm. apply Hno. rewrite <- Hperm'.
    apply elem_of_cons in Hm as [->|Hm]; [by left|right].
    rewrite <- (take_drop n others). apply elem_of_app. by left.
Qed.

End Start.

(** C9, at a queue with a bot in it. The host, member 1, is in the queue
    with members 2, 3 and 4, none of them a bot: enough for a two-a-side
    match. A bot has joined the queue as well. [startMatch] raises
    [TypeError] in the loop that is meant to drop the bots, and no match is
    made. Without the bot the four members are chosen, host first. *)
Theorem startMatch_bot_in_queue (fk : FloatKernel) :
  Bot.mkMember 1 false ∈ lobbyWithBot
  ∧ length (filter (λ m, Bot.bot m = false) lobbyWithBot) = 4%nat
  ∧ Bot.selectMembers ∅ lobbyWithBot (Bot.mkMember 1 false) 2
    = inl (Bot.Raised Bot.TypeError)
  ∧ Bot.startMatch fk freshState lobbyWithBot (Bot.mkMember 1 false) 2
                   "m4tch1"
    = (freshState, Bot.Raised Bot.TypeError)
  ∧ Bot.selectMembers ∅ lobby (Bot.mkMember 1 false) 2 = inr lobby.
Proof.
  split_and!; try (vm_compute; reflexivity).
  unfold lobbyWithBot, lobby. set_solver.
Qed.

(** The order of choice at work: member 2 hosts a one-a-side match; of the
    others, member 4 joined first, member 1 later and member 3 has no
    recorded join time. *)
Example selectMembers_order :
  Bot.selectMembers {[ 1 := 50; 2 := 30; 4 := 10 ]} lobby
                    (Bot.mkMember 2 false) 1
  = inr [Bot.mkMember 2 false; Bot.mkMember 4 false]
  ∧ Bot.selectMembers {[ 1 := 50; 2 := 30; 4 := 10 ]} lobby
                      (Bot.mkMember 2 false) 2
    = inr [Bot.mkMember 2 false; Bot.mkMember 4 false; Bot.mkMember 1 false;
           Bot.mkMember 3 false].
Proof. vm_compute. done. Qed.

(** ** Creating a match *)

Section Create.
Implicit Types (gs : gmap Z (gmap string Z)) (st : Bot.State).

(** A dict built from items with distinct keys lists them in order. *)
Lemma dict_set_fresh {V : Type} (d : list (Z * V)) (k : Z) (v : V) :
  k ∉ d.*1 → dict_set d k v = d ++ [(k, v)].
Proof.
  induction d as [|[k' v'] d IH]; simpl; [done|].
  intros [Hne Hk]%not_elem_of_cons.
  rewrite bool_decide_eq_false_2 by done. by rewrite IH.
Qed.

Lemma dict_of_distinct {V : Type} (items : list (Z * V)) : ∀ d,
  NoDup (d.*1 ++ items.*1) →
  foldl (λ d kv, dict_set d kv.1 kv.2) d items = d ++ items.
Proof.
  induction items as [|[k v] items IH]; intros d Hnd; simpl.
  - by rewrite app_nil_r.
  - rewrite dict_set_fresh.
    + rewrite IH; [by rewrite <- app_assoc|].
      by rewrite fmap_app, <- app_assoc.
    + apply NoDup_app in Hnd as (_ & Hdis & _).
      intros Hk. apply (Hdis k Hk). by left.
Qed.

Lemma liveElo_keys gs (members : list Z) :
  NoDup members → (Bot.liveElo gs members).*1 = members.
Proof.
  intros Hnd. unfold Bot.liveElo, dict_of.
  rewrite dict_of_distinct; simpl.
  - rewrite <- list_fmap_compose. apply list_fmap_id.
  - rewrite <- list_fmap_compose. by rewrite list_fmap_id.
Qed.

(** The predictor records a delta for every player of a team. *)
Lemma adjustTeam_covers fk perPlayerK (avgOpp : float fk) eloTeam team p :
  p ∈ team → is_Some (adjustTeam fk perPlayerK avgOpp eloTeam team !! p).
Proof.
  unfold adjustTeam. generalize (∅ : gmap Z Adjustment).
  induction team as [|q team IH]; intros acc Hp; [by apply elem_of_nil in Hp|].
  simpl. destruct (decide (p ∈ team)) as [Hin|Hout]; [by apply IH|].
  apply elem_of_cons in Hp as [->|Hp]; [|done].
  clear IH. set (a := mkAdjustment _ _). generalize a. clear a.
  intros a. assert (is_Some (<[q:=a]> acc !! q)) as Hq
    by (rewrite lookup_insert_eq; eauto).
  revert Hq. generalize (<[q:=a]> acc). clear Hout.
  induction team as [|r team IH]; intros acc' Hq; simpl; [done|].
  apply IH. destruct (decide (r = q)) as [->|Hne].
  - rewrite lookup_insert_eq. eauto.
  - by rewrite lookup_insert_ne.
Qed.

Lemma hosted_complete (user : Bot.Member) (members : list Bot.Member) : ∀ gs,
  statsComplete gs →
  statsComplete
    (foldl (λ gs m,
              if Bot.member_eqb m user
              then Bot.updateElo gs (Bot.id m) [("hosted", 1)] true
              else gs)
           gs members).
Proof.
  induction members as [|m members IH]; intros gs Hc; simpl; [done|].
  apply IH. destruct (Bot.member_eqb m user); [|done].
  by apply updateElo_complete.
Qed.

(** A side of the players, read off the list of players, is that side. *)
Lemma filter_side (players side : list Z) :
  NoDup players → NoDup side → side ⊆ players →
  filter (λ m, m ∈ side) players ≡ₚ side.
Proof.
  intros Hp Hs Hsub. apply NoDup_Permutation; [by apply NoDup_filter|done|].
  intros x. rewrite list_elem_of_filter. split; [by intros [? _]|].
  intros Hx. split; [done|by apply Hsub].
Qed.

(** [startMatch] creates matches on which [endMatch] works: when the queue
    holds no bot and enough members, the host among them, the new match is
    active, has [matchType] members on each roster, nobody on both, and a
    predicted delta for every roster member under the member's side. *)
Lemma startMatch_creates fk st (queueMembers : list Bot.Member)
    (user : Bot.Member) (matchType : Z) (matchId : string) :
  (∀ m, m ∈ queueMembers → Bot.bot m = false) →
  NoDup (Bot.id <$> queueMembers) →
  user ∈ queueMembers →
  1 ≤ matchType →
  matchType * 2 ≤ Z.of_nat (length queueMembers) →
  statsComplete (Bot.guildStats st) →
  ∃ st' m,
    Bot.startMatch fk st queueMembers user matchType matchId
    = (st', Bot.Completed)
    ∧ Bot.matches st' !! matchId = Some m
    ∧ Bot.who_won m = None
    ∧ Bot.host m = Bot.id user
    ∧ Z.of_nat (length (Bot.roster st' (Bot.redTeam m))) = matchType
    ∧ Z.of_nat (length (Bot.roster st' (Bot.blueTeam m))) = matchType
    ∧ NoDup (Bot.roster st' (Bot.redTeam m)
             ++ Bot.roster st' (Bot.blueTeam m))
    ∧ deltasCoverRoster st' m
    ∧ statsComplete (Bot.guildStats st').
Proof.
  intros Hno Hnd Huser Hone Hlen Hc.
  destruct (selectMembers_no_bots (Bot.voicePresence st) queueMembers user
              matchType Hno Hnd Huser Hone Hlen)
    as (chosen & left & Hsel & Hn & Hperm & _ & _).
  unfold Bot.startMatch. rewrite Hsel.
  set (sel := user :: chosen) in *.
  set (ids := Bot.id <$> sel).
  assert (NoDup ids) as Hids.
  { assert (NoDup (Bot.id <$> (sel ++ left))) as H.
    { unfold sel. simpl. rewrite <- Hperm in Hnd. exact Hnd. }
    rewrite fmap_app in H. by apply NoDup_app in H as (? & _ & _). }
  set (fm := Bot.liveElo (Bot.guildStats st) ids).
  assert (fm.*1 = ids) as Hkeys by by apply liveElo_keys.
  assert (NoDup fm.*1) as Hfm by by rewrite Hkeys.
  destruct (getTeams_partition fm Hfm)
    as (pre & c & post & Hcs & Hget & _ & _ & Hlc & Hsplit).
  rewrite Hget.
  assert (length fm = length sel) as Hlf.
  { rewrite <- (length_fmap fst fm), Hkeys. unfold ids.
    by rewrite length_fmap. }
  assert ((length fm / 2)%nat = Z.to_nat matchType) as Hhalf.
  { rewrite Hlf. replace (length sel) with (Z.to_nat matchType * 2)%nat
      by lia. by apply Nat.div_mul. }
  rewrite Hhalf in Hlc.
  pose proof (Permutation_length Hsplit) as Hl2.
  rewrite length_app, length_fmap, Hlf in Hl2.
  set (c' := complement fm.*1 c) in *.
  assert (length c' = Z.to_nat matchType) as Hlc' by lia.
  assert (NoDup (c ++ c')) as Hndc by by rewrite Hsplit.
  apply NoDup_app in Hndc as (Hndr & Hdis & Hndb).
  assert (c ⊆ ids ∧ c' ⊆ ids) as [Hsubr Hsubb].
  { rewrite <- Hkeys. split; intros x Hx; rewrite <- Hsplit;
      apply elem_of_app; auto. }
  unfold calculatePreGameElo, candidate. cbn [redTeam blueTeam].
  fold c'. rewrite !bool_decide_eq_false_2 by lia.
  cbn [eloRedTeam eloBlueTeam].
  set (red := filter (λ m, m ∈ c) ids).
  set (blue := filter (λ m, m ∈ c') ids).
  assert (red ≡ₚ c) as Hred by by apply filter_side.
  assert (blue ≡ₚ c') as Hblue by by apply filter_side.
  set (redLoc := fresh (dom (Bot.lists st))).
  set (blueLoc := fresh (dom (<[redLoc:=red]> (Bot.lists st)))).
  assert (blueLoc ≠ redLoc) as Hloc.
  { intros Heq. apply (is_fresh (dom (<[redLoc:=red]> (Bot.lists st)))).
    fold blueLoc. rewrite Heq, dom_insert. set_solver. }
  eexists _, _. split; [reflexivity|].
  unfold Bot.roster. cbn [Bot.matches Bot.lists Bot.guildStats].
  rewrite lookup_insert_eq. split; [reflexivity|].
  cbn [Bot.who_won Bot.host Bot.redTeam Bot.blueTeam Bot.preGameEloCalc].
  rewrite lookup_total_insert_eq.
  rewrite lookup_total_insert_ne, lookup_total_insert_eq by done.
  split_and!; try done.
  - rewrite Hred. lia.
  - rewrite Hblue. lia.
  - rewrite Hred, Hblue. apply NoDup_app. done.
  - unfold deltasCoverRoster, Bot.roster.
    cbn [Bot.matches Bot.lists Bot.redTeam Bot.blueTeam Bot.preGameEloCalc
         redAdjustments blueAdjustments].
    rewrite lookup_total_insert_eq.
    rewrite lookup_total_insert_ne, lookup_total_insert_eq by done.
    split; intros p Hp; apply adjustTeam_covers.
    + by rewrite <- Hred.
    + by rewrite <- Hblue.
  - by apply hosted_complete.
Qed.

(** Creating a match and resolving it: [endMatch] goes through and rates
    every participant by the frozen delta of the outcome. *)
Lemma startMatch_then_endMatch fk st (queueMembers : list Bot.Member)
    (user : Bot.Member) (matchType : Z) (matchId : string) (winner : Z) :
  (∀ m, m ∈ queueMembers → Bot.bot m = false) →
  NoDup (Bot.id <$> queueMembers) →
  user ∈ queueMembers →
  1 ≤ matchType →
  matchType * 2 ≤ Z.of_nat (length queueMembers) →
  statsComplete (Bot.guildStats st) →
  ∃ created m resolved,
    Bot.startMatch fk st queueMembers user matchType matchId
    = (created, Bot.Completed)
    ∧ Bot.matches created !! matchId = Some m
    ∧ Bot.endMatch created matchId winner = (resolved, Bot.Completed)
    ∧ (∀ p, p ∈ Bot.roster created (Bot.redTeam m) →
         ∃ a, redAdjustments (Bot.preGameEloCalc m) !! p = Some a
              ∧ rating (Bot.guildStats resolved) p
                = rating (Bot.guildStats created) p
                  + (if bool_decide (winner = 0) then won a else loss a)
              ∧ playedOf (Bot.guildStats resolved) p
                = playedOf (Bot.guildStats created) p + 1)
    ∧ (∀ p, p ∈ Bot.roster created (Bot.blueTeam m) →
         ∃ a, blueAdjustments (Bot.preGameEloCalc m) !! p = Some a
              ∧ rating (Bot.guildStats resolved) p
                = rating (Bot.guildStats created) p
                  + (if bool_decide (winner = 0) then loss a else won a)
              ∧ playedOf (Bot.guildStats resolved) p
                = playedOf (Bot.guildStats created) p + 1).
Proof.
  intros Hno Hnd Huser Hone Hlen Hc.
  destruct (startMatch_creates fk st queueMembers user matchType matchId
              Hno Hnd Huser Hone Hlen Hc)
    as (created & m & Hrun & Hm & Hw & _ & _ & _ & Hnd' & Hcov & Hc').
  destruct (endMatch_effect created matchId m winner Hm Hw Hnd' Hcov Hc')
    as (gs' & Hend & _ & Hr & Hb).
  exists created, m. eexists. split_and!; [done|done|exact Hend|..].
  - intros p Hp. destruct Hcov as [Hcr _].
    destruct (Hcr p Hp) as [a Ha]. exists a.
    destruct (Hr p a Hp Ha) as (? & ? & _). done.
  - intros p Hp. destruct Hcov as [_ Hcb].
    destruct (Hcb p Hp) as [a Ha]. exists a.
    destruct (Hb p a Hp Ha) as (? & ? & _). done.
Qed.

End Create.

(** ** More on swapping the winner *)

Section SwapMore.
Implicit Types (st : Bot.State) (cMatch : Bot.Match).

(** The state [endMatch] and [swapWinners] leave is ready for the next
    correction. *)
Lemma matchReady_marked st cMatch matchId w gs' :
  matchReady st cMatch → statsComplete gs' →
  matchReady
    (Bot.mkState
       (<[matchId := Bot.set_who_won cMatch (Some w)]> (Bot.matches st))
       gs' (Bot.lists st) (Bot.voicePresence st) (Bot.penaltyData st))
    (Bot.set_who_won cMatch (Some w)).
Proof. intros (Hnd & Hcov & _) Hc. by split_and!. Qed.

End SwapMore.

(** X1. [swapWinners] on a resolved match flips the winner (to red when
    blue had won, to blue otherwise) and moves every participant's rating
    by twice the frozen delta of the new outcome; [wins] goes up by one on
    the new winning side and down by one on the other, and [played] is
    left as it is. *)
Theorem swapWinners_flips (st : Bot.State) (matchId : string)
    (cMatch : Bot.Match) (w : Z) :
  Bot.matches st !! matchId = Some cMatch →
  Bot.who_won cMatch = Some w →
  matchReady st cMatch →
  let newWinner := if bool_decide (w = 1) then 0 else 1 in
  ∃ st',
    Bot.swapWinners st matchId = (st', Bot.Completed)
    ∧ Bot.who_won <$> Bot.matches st' !! matchId = Some (Some newWinner)
    ∧ (∀ p a, p ∈ Bot.roster st (Bot.redTeam cMatch) →
         redAdjustments (Bot.preGameEloCalc cMatch) !! p = Some a →
         rating (Bot.guildStats st') p
         = rating (Bot.guildStats st) p
           + (if bool_decide (newWinner = 0) then won a else loss a) * 2
         ∧ playedOf (Bot.guildStats st') p = playedOf (Bot.guildStats st) p
         ∧ winsOf (Bot.guildStats st') p
           = winsOf (Bot.guildStats st) p
             + (if bool_decide (newWinner = 0) then 1 else -1))
    ∧ (∀ p a, p ∈ Bot.roster st (Bot.blueTeam cMatch) →
         blueAdjustments (Bot.preGameEloCalc cMatch) !! p = Some a →
         rating (Bot.guildStats st') p
         = rating (Bot.guildStats st) p
           + (if bool_decide (newWinner = 0) then loss a else won a) * 2
         ∧ playedOf (Bot.guildStats st') p = playedOf (Bot.guildStats st) p
         ∧ winsOf (Bot.guildStats st') p
           = winsOf (Bot.guildStats st) p
             + (if bool_decide (newWinner = 0) then -1 else 1)).
Proof.
  intros Hm Hw (Hnd & Hcov & Hc) newWinner.
  destruct (swapWinners_doubles st matchId cMatch w Hm Hw Hnd Hcov Hc)
    as (gs' & Hrun & _ & Hr & Hb).
  eexists. split; [exact Hrun|]. split_and!; try done.
  cbn [Bot.matches]. by rewrite lookup_insert_eq.
Qed.

(** The hypotheses of the lemmas on [duelResolved]. *)
Lemma duelResolved_ready : matchReady duelResolved (Bot.set_who_won duel (Some 0)).
Proof.
  split_and!.
  - apply (bool_decide_unpack _). vm_compute. reflexivity.
  - split; intros p Hp; roster_cases Hp; vm_compute; eauto.
  - apply (bool_decide_unpack _). vm_compute. reflexivity.
Qed.

Lemma swapWinners_flips_witness :
  ∃ st',
    Bot.swapWinners duelResolved "dUeL01" = (st', Bot.Completed)
    ∧ Bot.who_won <$> Bot.matches st' !! "dUeL01" = Some (Some 1)
    ∧ rating (Bot.guildStats st') 1 = 134 + -16 * 2
    ∧ rating (Bot.guildStats st') 2 = 86 + 16 * 2.
Proof.
  destruct (swapWinners_flips duelResolved "dUeL01"
              (Bot.set_who_won duel (Some 0)) 0)
    as (st' & Hrun & Hw & Hr & Hb).
  - vm_compute. reflexivity.
  - reflexivity.
  - exact duelResolved_ready.
  - exists st'. split_and!; [done|done|..].
    + destruct (Hr 1 (mkAdjustment 14 (-16))) as (-> & _);
        [vm_compute; constructor|vm_compute; reflexivity|].
      vm_compute. reflexivity.
    + destruct (Hb 2 (mkAdjustment 16 (-14))) as (-> & _);
        [vm_compute; constructor|vm_compute; reflexivity|].
      vm_compute. reflexivity.
Defined.

(** X2. Resolving a match for one side and then swapping the winner does
    not give the ratings of resolving it for the other side at once: for
    every participant the two differ by the sum [won + loss] of the
    participant's frozen deltas, and so agree only where the two deltas are
    opposite. [played] and [wins] are the same either way. *)
Theorem swap_drift (st : Bot.State) (matchId : string) (cMatch : Bot.Match)
    (w : Z) :
  Bot.matches st !! matchId = Some cMatch →
  Bot.who_won cMatch = None →
  matchReady st cMatch →
  w = 0 ∨ w = 1 →
  let swapped :=
    Bot.guildStats (Bot.swapWinners (Bot.endMatch st matchId w).1 matchId).1 in
  let direct := Bot.guildStats (Bot.endMatch st matchId (1 - w)).1 in
  ∀ p a, playsWith st cMatch p a →
    rating swapped p = rating direct p + (won a + loss a)
    ∧ playedOf swapped p = playedOf direct p
    ∧ winsOf swapped p = winsOf direct p.
Proof.
  intros Hm Hw (Hnd & Hcov & Hc) Hw01.
  exact (resolve_then_swap st matchId cMatch w Hm Hw Hnd Hcov Hc Hw01).
Qed.

Lemma duelState_ready : matchReady duelState duel.
Proof.
  split_and!.
  - apply (bool_decide_unpack _). vm_compute. reflexivity.
  - split; intros p Hp; roster_cases Hp; vm_compute; eauto.
  - apply (bool_decide_unpack _). vm_compute. reflexivity.
Qed.

Lemma swap_drift_witness :
  let swapped :=
    Bot.guildStats
      (Bot.swapWinners (Bot.endMatch duelState "dUeL01" 0).1 "dUeL01").1 in
  let direct := Bot.guildStats (Bot.endMatch duelState "dUeL01" (1 - 0)).1 in
  rating swapped 1 = rating direct 1 + (14 + -16)
  ∧ playedOf swapped 1 = playedOf direct 1
  ∧ winsOf swapped 1 = winsOf direct 1.
Proof.
  apply (swap_drift duelState "dUeL01" duel 0 eq_refl eq_refl
           duelState_ready (or_introl eq_refl) 1 (mkAdjustment 14 (-16))).
  left. split; [vm_compute; constructor|vm_compute; reflexivity].
Defined.

(** X3. Swapping the winner twice brings back the winner, [wins] and
    [played] of every participant, but not the ratings: each has moved by
    twice the sum [won + loss] of the participant's frozen deltas. *)
Theorem swapWinners_twice (st : Bot.State) (matchId : string)
    (cMatch : Bot.Match) (w : Z) :
  Bot.matches st !! matchId = Some cMatch →
  Bot.who_won cMatch = Some w →
  matchReady st cMatch →
  w = 0 ∨ w = 1 →
  ∃ st1 st2,
    Bot.swapWinners st matchId = (st1, Bot.Completed)
    ∧ Bot.swapWinners st1 matchId = (st2, Bot.Completed)
    ∧ Bot.who_won <$> Bot.matches st2 !! matchId = Some (Some w)
    ∧ ∀ p a, playsWith st cMatch p a →
        rating (Bot.guildStats st2) p
        = rating (Bot.guildStats st) p + (won a + loss a) * 2
        ∧ playedOf (Bot.guildStats st2) p = playedOf (Bot.guildStats st) p
        ∧ winsOf (Bot.guildStats st2) p = winsOf (Bot.guildStats st) p.
Proof.
  intros Hm Hw Hready Hw01.
  pose proof Hready as (Hnd & Hcov & Hc).
  destruct (swapWinners_doubles st matchId cMatch w Hm Hw Hnd Hcov Hc)
    as (gs1 & Hrun1 & Hc1 & Hr1 & Hb1).
  set (w1 := if bool_decide (w = 1) then 0 else 1) in *.
  set (st1 := Bot.mkState _ gs1 _ _ _) in Hrun1.
  destruct (matchReady_marked st cMatch matchId w1 gs1 Hready Hc1)
    as (Hnd1 & Hcov1 & _).
  fold st1 in Hnd1, Hcov1.
  destruct (swapWinners_doubles st1 matchId (Bot.set_who_won cMatch (Some w1))
              w1 (lookup_insert_eq _ _ _) eq_refl Hnd1 Hcov1 Hc1)
    as (gs2 & Hrun2 & _ & Hr2 & Hb2).
  exists st1. eexists. split_and!; [exact Hrun1|exact Hrun2|..].
  - cbn [Bot.matches]. rewrite lookup_insert_eq. simpl.
    unfold w1. destruct Hw01 as [-> | ->]; reflexivity.
  - cbn [Bot.guildStats].
    change (Bot.guildStats st1) with gs1 in Hr2, Hb2.
    intros p a [[Hp Ha]|[Hp Ha]].
    + destruct (Hr2 p a Hp Ha) as (-> & -> & ->).
      destruct (Hr1 p a Hp Ha) as (-> & -> & ->).
      unfold w1. destruct Hw01 as [-> | ->]; simpl; split_and!; lia.
    + destruct (Hb2 p a Hp Ha) as (-> & -> & ->).
      destruct (Hb1 p a Hp Ha) as (-> & -> & ->).
      unfold w1. destruct Hw01 as [-> | ->]; simpl; split_and!; lia.
Qed.

Lemma swapWinners_twice_witness :
  ∃ st1 st2,
    Bot.swapWinners duelResolved "dUeL01" = (st1, Bot.Completed)
    ∧ Bot.swapWinners st1 "dUeL01" = (st2, Bot.Completed)
    ∧ Bot.who_won <$> Bot.matches st2 !! "dUeL01" = Some (Some 0)
    ∧ ∀ p a, playsWith duelResolved (Bot.set_who_won duel (Some 0)) p a →
        rating (Bot.guildStats st2) p
        = rating (Bot.guildStats duelResolved) p + (won a + loss a) * 2
        ∧ playedOf (Bot.guildStats st2) p
          = playedOf (Bot.guildStats duelResolved) p
        ∧ winsOf (Bot.guildStats st2) p
          = winsOf (Bot.guildStats duelResolved) p.
Proof.
  apply (swapWinners_twice duelResolved "dUeL01"
           (Bot.set_who_won duel (Some 0)) 0).
  - vm_compute. reflexivity.
  - reflexivity.
  - exact duelResolved_ready.
  - by left.
Defined.

Example swapWinners_twice_duel :
  let twice :=
    (Bot.swapWinners (Bot.swapWinners duelResolved "dUeL01").1 "dUeL01").1 in
  rating (Bot.guildStats duelResolved) 1 = 134
  ∧ rating (Bot.guildStats twice) 1 = 130
  ∧ rating (Bot.guildStats duelResolved) 2 = 86
  ∧ rating (Bot.guildStats twice) 2 = 90.
Proof. vm_compute. repeat split. Qed.

(** ** More on the ledger *)

Section LedgerMore.
Implicit Types (gs : gmap Z (gmap string Z)) (record : gmap string Z).

Lemma updateStat_other update record kv key :
  kv.1 ≠ key → Bot.updateStat update record kv !! key = record !! key.
Proof.
  intros Hne. unfold Bot.updateStat.
  destruct (record !! kv.1); [destruct update|]; by rewrite lookup_insert_ne.
Qed.

Lemma updateStats_other update stats : ∀ record key,
  key ∉ stats.*1 →
  foldl (Bot.updateStat update) record stats !! key = record !! key.
Proof.
  induction stats as [|kv stats IH]; intros record key Hk; simpl; [done|].
  apply not_elem_of_cons in Hk as [Hne Hk].
  rewrite IH by done. by apply updateStat_other.
Qed.

(** A listed stat, in [Add] mode and in [Set] mode. *)
Lemma updateStats_listed update stats : ∀ record key value,
  NoDup stats.*1 → (key, value) ∈ stats →
  foldl (Bot.updateStat update) record stats !! key
  = Some (match record !! key with
          | Some old => if update then old + value else value
          | None => value
          end).
Proof.
  induction stats as [|kv stats IH]; intros record key value Hnd Hin;
    [by apply elem_of_nil in Hin|].
  simpl in *. apply NoDup_cons in Hnd as [Hkv Hnd].
  apply elem_of_cons in Hin as [<-|Hin].
  - rewrite updateStats_other by done.
    unfold Bot.updateStat. simpl.
    destruct (record !! key); [destruct update|]; by rewrite lookup_insert_eq.
  - assert (kv.1 ≠ key) as Hne.
    { intros <-. apply Hkv. apply list_elem_of_fmap. by exists (kv.1, value). }
    rewrite (IH _ _ _ Hnd Hin). by rewrite updateStat_other.
Qed.

(** [updateElo] never touches a stat that is not listed. *)
Lemma updateElo_unlisted gs member stats update p key d :
  key ∉ stats.*1 →
  Bot.initialStats !! key = Some d ∨ p ≠ member →
  Bot.stat (Bot.updateElo gs member stats update) p key d
  = Bot.stat gs p key d.
Proof.
  intros Hk Hd. unfold Bot.stat, Bot.updateElo.
  destruct (decide (p = member)) as [->|Hne].
  - rewrite lookup_insert_eq. simpl. rewrite updateStats_other by done.
    destruct (gs !! member) as [r|]; simpl; [done|].
    destruct Hd as [-> | ?]; done.
  - by rewrite lookup_insert_ne.
Qed.

(** The loops of [endMatch] and [swapWinners], whether they end or raise,
    leave alone the members that are not on the team and nobody's count of
    hosted matches. *)
Lemma applyResults_frame adjustments delta pl w team : ∀ gs,
  let gs' := (Bot.applyResults adjustments delta pl w gs team).1 in
  (∀ q, q ∉ team → gs' !! q = gs !! q)
  ∧ (∀ q, hostedOf gs' q = hostedOf gs q)
  ∧ (noWonKey gs → noWonKey gs').
Proof.
  induction team as [|m team IH]; intros gs; simpl; [done|].
  destruct (adjustments !! m) as [a|]; simpl; [|done].
  set (gs1 := Bot.updateElo gs m _ true).
  destruct (IH gs1) as (Hout & Hhost & Hwon).
  split_and!.
  - intros q [Hne Hq]%not_elem_of_cons. rewrite Hout by done.
    by apply updateElo_other.
  - intros q. rewrite Hhost. unfold hostedOf, gs1.
    apply updateElo_unlisted; [|by left].
    simpl. rewrite !not_elem_of_cons. split_and!; try done.
    apply not_elem_of_nil.
  - intros Hn. apply Hwon. intros q r. unfold gs1, Bot.updateElo.
    destruct (decide (m = q)) as [->|Hne].
    + rewrite lookup_insert_eq. intros [= <-]. cbv beta.
      change (foldl (Bot.updateStat true) (default Bot.initialStats (gs !! q))
                [("elo", delta a); ("played", pl); ("wins", w)] !! "won"
              = None).
      rewrite updateStats_other.
      * destruct (gs !! q) as [r|] eqn:Hr; simpl; [by apply (Hn q)|done].
      * simpl. rewrite !not_elem_of_cons. split_and!; try done.
        apply not_elem_of_nil.
    + rewrite lookup_insert_ne by done. apply Hn.
Qed.

Lemma applyMatch_frame cMatch red blue redDelta blueDelta pl rWin bWin gs :
  let gs' :=
    (Bot.applyMatch cMatch red blue redDelta blueDelta pl rWin bWin gs).1 in
  (∀ q, q ∉ red → q ∉ blue → gs' !! q = gs !! q)
  ∧ (∀ q, hostedOf gs' q = hostedOf gs q)
  ∧ (noWonKey gs → noWonKey gs').
Proof.
  unfold Bot.applyMatch.
  pose proof (applyResults_frame
                (redAdjustments (Bot.preGameEloCalc cMatch))
                redDelta pl rWin red gs) as (Hout1 & Hh1 & Hw1).
  destruct (Bot.applyResults _ redDelta pl rWin gs red) as [gs1 [e|]];
    simpl in *.
  { split_and!; auto. }
  pose proof (applyResults_frame
                (blueAdjustments (Bot.preGameEloCalc cMatch))
                blueDelta pl bWin blue gs1) as (Hout2 & Hh2 & Hw2).
  split_and!.
  - intros q Hr Hb. by rewrite Hout2, Hout1.
  - intros q. by rewrite Hh2, Hh1.
  - auto.
Qed.

Lemma finish_guildStats st r :
  Bot.guildStats (Bot.finish st r).1 = r.1
  ∧ Bot.lists (Bot.finish st r).1 = Bot.lists st
  ∧ Bot.matches (Bot.finish st r).1 = Bot.matches st
  ∧ Bot.penaltyData (Bot.finish st r).1 = Bot.penaltyData st
  ∧ Bot.voicePresence (Bot.finish st r).1 = Bot.voicePresence st.
Proof. by destruct r as [gs [e|]]. Qed.

(** [endMatch] and [swapWinners], however they end. *)
Lemma endMatch_frame_gen st matchId winner :
  let st' := (Bot.endMatch st matchId winner).1 in
  (∀ q, hostedOf (Bot.guildStats st') q = hostedOf (Bot.guildStats st) q)
  ∧ (∀ cMatch q, Bot.matches st !! matchId = Some cMatch →
       q ∉ Bot.roster st (Bot.redTeam cMatch) →
       q ∉ Bot.roster st (Bot.blueTeam cMatch) →
       Bot.guildStats st' !! q = Bot.guildStats st !! q)
  ∧ (noWonKey (Bot.guildStats st) → noWonKey (Bot.guildStats st'))
  ∧ Bot.lists st' = Bot.lists st
  ∧ Bot.penaltyData st' = Bot.penaltyData st
  ∧ Bot.voicePresence st' = Bot.voicePresence st
  ∧ (∀ other, other ≠ matchId →
       Bot.matches st' !! other = Bot.matches st !! other).
Proof.
  unfold Bot.endMatch.
  destruct (Bot.matches st !! matchId) as [cMatch|] eqn:Hm; simpl;
    [|split_and!; [done| |done..]; by intros ? ? [=]].
  destruct (Bot.who_won cMatch) as [w|] eqn:Hw; simpl;
    [split_and!; [done| |done..]; by intros ? ? [=]|].
  set (st1 := Bot.set_matches st _).
  match goal with |- context [Bot.finish st1 ?r] => set (res := r) end.
  destruct (finish_guildStats st1 res) as (-> & -> & -> & -> & ->).
  assert (∃ rd bd pl rw bw,
            res = Bot.applyMatch cMatch (Bot.roster st (Bot.redTeam cMatch))
                    (Bot.roster st (Bot.blueTeam cMatch)) rd bd pl rw bw
                    (Bot.guildStats st)) as (rd & bd & pl & rw & bw & ->).
  { unfold res. case_bool_decide; eauto 10. }
  destruct (applyMatch_frame cMatch (Bot.roster st (Bot.redTeam cMatch))
              (Bot.roster st (Bot.blueTeam cMatch)) rd bd pl rw bw
              (Bot.guildStats st)) as (Hout & Hh & Hwon).
  split_and!; try done.
  - intros c q [= <-]. apply Hout.
  - intros other Hne. simpl. by rewrite lookup_insert_ne.
Qed.

Lemma swapWinners_frame_gen st matchId :
  let st' := (Bot.swapWinners st matchId).1 in
  (∀ q, hostedOf (Bot.guildStats st') q = hostedOf (Bot.guildStats st) q)
  ∧ (∀ cMatch q, Bot.matches st !! matchId = Some cMatch →
       q ∉ Bot.roster st (Bot.redTeam cMatch) →
       q ∉ Bot.roster st (Bot.blueTeam cMatch) →
       Bot.guildStats st' !! q = Bot.guildStats st !! q)
  ∧ (noWonKey (Bot.guildStats st) → noWonKey (Bot.guildStats st'))
  ∧ Bot.lists st' = Bot.lists st
  ∧ Bot.penaltyData st' = Bot.penaltyData st
  ∧ Bot.voicePresence st' = Bot.voicePresence st
  ∧ (∀ other, other ≠ matchId →
       Bot.matches st' !! other = Bot.matches st !! other).
Proof.
  unfold Bot.swapWinners.
  destruct (Bot.matches st !! matchId) as [cMatch|] eqn:Hm; simpl;
    [|split_and!; [done| |done..]; by intros ? ? [=]].
  destruct (Bot.who_won cMatch) as [w|] eqn:Hw; simpl;
    [|split_and!; [done| |done..]; by intros ? ? [=]].
  set (st1 := Bot.set_matches st _).
  match goal with |- context [Bot.finish st1 ?r] => set (res := r) end.
  destruct (finish_guildStats st1 res) as (-> & -> & -> & -> & ->).
  assert (∃ rd bd pl rw bw,
            res = Bot.applyMatch cMatch (Bot.roster st (Bot.redTeam cMatch))
                    (Bot.roster st (Bot.blueTeam cMatch)) rd bd pl rw bw
                    (Bot.guildStats st)) as (rd & bd & pl & rw & bw & ->).
  { unfold res. case_bool_decide; eauto 10. }
  destruct (applyMatch_frame cMatch (Bot.roster st (Bot.redTeam cMatch))
              (Bot.roster st (Bot.blueTeam cMatch)) rd bd pl rw bw
              (Bot.guildStats st)) as (Hout & Hh & Hwon).
  split_and!; try done.
  - intros c q [= <-]. apply Hout.
  - intros other Hne. simpl. by rewrite lookup_insert_ne.
Qed.

End LedgerMore.

(** X4. However [endMatch] and [swapWinners] end (with a notice, with the
    match rated, or with a [KeyError] half way), they change nobody's count
    of hosted matches, leave the record of every member who is on neither
    roster of the match as it was, and do not touch the rosters, the
    penalties, the queue times or any other match. *)
Theorem resolution_frame (st : Bot.State) (matchId : string) (winner : Z) :
  ∀ st',
    st' = (Bot.endMatch st matchId winner).1
    ∨ st' = (Bot.swapWinners st matchId).1 →
    (∀ q, hostedOf (Bot.guildStats st') q = hostedOf (Bot.guildStats st) q)
    ∧ (∀ cMatch q, Bot.matches st !! matchId = Some cMatch →
         q ∉ Bot.roster st (Bot.redTeam cMatch) →
         q ∉ Bot.roster st (Bot.blueTeam cMatch) →
         Bot.guildStats st' !! q = Bot.guildStats st !! q)
    ∧ Bot.lists st' = Bot.lists st
    ∧ Bot.penaltyData st' = Bot.penaltyData st
    ∧ Bot.voicePresence st' = Bot.voicePresence st
    ∧ (∀ other, other ≠ matchId →
         Bot.matches st' !! other = Bot.matches st !! other).
Proof.
  intros st' [-> | ->].
  - destruct (endMatch_frame_gen st matchId winner)
      as (? & ? & _ & ? & ? & ? & ?). by split_and!.
  - destruct (swapWinners_frame_gen st matchId)
      as (? & ? & _ & ? & ? & ? & ?). by split_and!.
Qed.

Section Partial.
Implicit Types (gs : gmap Z (gmap string Z)).

Lemma applyResults_app adjustments delta pl w l1 l2 : ∀ gs,
  Bot.applyResults adjustments delta pl w gs (l1 ++ l2)
  = match Bot.applyResults adjustments delta pl w gs l1 with
    | (gs1, None) => Bot.applyResults adjustments delta pl w gs1 l2
    | (gs1, Some e) => (gs1, Some e)
    end.
Proof.
  induction l1 as [|m l1 IH]; intros gs; simpl; [done|].
  destruct (adjustments !! m); [apply IH|done].
Qed.

End Partial.

(** X5. [endMatch] is not all or nothing. When the red roster reaches a
    member for whom the match has no red delta, the handler raises
    [KeyError]: by then the winner is recorded and the members that come
    earlier on the red roster are rated, while that member, the rest of the
    red roster and the whole blue roster are not; and as the match now has
    a winner, a further [endMatch] is turned away. *)
Theorem endMatch_not_atomic (st : Bot.State) (matchId : string)
    (cMatch : Bot.Match) (winner : Z) (before after : list Z) (p : Z) :
  Bot.matches st !! matchId = Some cMatch →
  Bot.who_won cMatch = None →
  Bot.roster st (Bot.redTeam cMatch) = before ++ p :: after →
  NoDup before →
  (∀ q, q ∈ before →
        is_Some (redAdjustments (Bot.preGameEloCalc cMatch) !! q)) →
  redAdjustments (Bot.preGameEloCalc cMatch) !! p = None →
  statsComplete (Bot.guildStats st) →
  ∃ st',
    Bot.endMatch st matchId winner = (st', Bot.Raised Bot.KeyError)
    ∧ Bot.who_won <$> Bot.matches st' !! matchId = Some (Some winner)
    ∧ (∀ q a, q ∈ before →
         redAdjustments (Bot.preGameEloCalc cMatch) !! q = Some a →
         rating (Bot.guildStats st') q
         = rating (Bot.guildStats st) q
           + (if bool_decide (winner = 0) then won a else loss a)
         ∧ playedOf (Bot.guildStats st') q
           = playedOf (Bot.guildStats st) q + 1)
    ∧ (∀ q, q ∉ before → Bot.guildStats st' !! q = Bot.guildStats st !! q)
    ∧ (∀ winner',
         Bot.endMatch st' matchId winner'
         = (st', Bot.Notified Bot.AlreadyEndedOrCancelled)).
Proof.
  intros Hm Hw Hred Hnd Hcov Hp Hc.
  unfold Bot.endMatch at 1. rewrite Hm, Hw, Hred.
  set (st1 := Bot.set_matches st _).
  assert (∀ delta rw bd bw,
            ∃ gs',
              Bot.applyMatch cMatch (before ++ p :: after)
                (Bot.roster st (Bot.blueTeam cMatch)) delta bd 1 rw bw
                (Bot.guildStats st1)
              = (gs', Some Bot.KeyError)
              ∧ (∀ q, q ∉ before → gs' !! q = Bot.guildStats st !! q)
              ∧ (∀ q a, q ∈ before →
                   redAdjustments (Bot.preGameEloCalc cMatch) !! q = Some a →
                   rating gs' q = rating (Bot.guildStats st) q + delta a
                   ∧ playedOf gs' q = playedOf (Bot.guildStats st) q + 1))
    as Hrun.
  { intros delta rw bd bw. unfold Bot.applyMatch.
    rewrite applyResults_app.
    destruct (applyResults_spec
                (redAdjustments (Bot.preGameEloCalc cMatch)) delta 1 rw
                before (Bot.guildStats st1) Hnd Hcov Hc)
      as (gs' & -> & _ & Hout & Hin).
    simpl. rewrite Hp. exists gs'. split_and!; [done|done|].
    intros q a Hq Ha. destruct (Hin q a Hq Ha) as (? & ? & _). done. }
  assert (∀ gs',
            ∀ winner',
              Bot.endMatch (Bot.set_guildStats st1 gs') matchId winner'
              = (Bot.set_guildStats st1 gs',
                 Bot.Notified Bot.AlreadyEndedOrCancelled)) as Hagain.
  { intros gs' winner'.
    apply (endMatch_resolved _ _ (Bot.set_who_won cMatch (Some winner))
             winner); [apply lookup_insert_eq|done]. }
  case_bool_decide as Hwin.
  - destruct (Hrun won 1 loss 0) as (gs' & -> & Hout & Hin).
    exists (Bot.set_guildStats st1 gs'). split_and!; try done.
    cbn [Bot.matches Bot.set_guildStats st1 Bot.set_matches].
    by rewrite lookup_insert_eq.
  - destruct (Hrun loss 0 won 1) as (gs' & -> & Hout & Hin).
    exists (Bot.set_guildStats st1 gs'). split_and!; try done.
    cbn [Bot.matches Bot.set_guildStats st1 Bot.set_matches].
    by rewrite lookup_insert_eq.
Qed.

Lemma endMatch_not_atomic_witness :
  ∃ st',
    Bot.endMatch halfCovered "h4lf01" 0 = (st', Bot.Raised Bot.KeyError)
    ∧ Bot.who_won <$> Bot.matches st' !! "h4lf01" = Some (Some 0)
    ∧ rating (Bot.guildStats st') 1 = 115
    ∧ Bot.guildStats st' !! 5 = None
    ∧ Bot.guildStats st' !! 2 = None
    ∧ Bot.endMatch st' "h4lf01" 0
      = (st', Bot.Notified Bot.AlreadyEndedOrCancelled).
Proof.
  destruct (endMatch_not_atomic halfCovered "h4lf01"
              (Bot.mkMatch
                 (mkPreGameElo {[ 1 := mkAdjustment 15 (-15) ]}
                               {[ 2 := mkAdjustment 15 (-15) ]})
                 1%positive 2%positive None 1)
              0 [1] [] 5)
    as (st' & Hrun & Hw & Hin & Hout & Hagain).
  - vm_compute. reflexivity.
  - reflexivity.
  - vm_compute. reflexivity.
  - apply (bool_decide_unpack _). vm_compute. reflexivity.
  - intros q Hq. apply list_elem_of_singleton in Hq as ->.
    vm_compute. eauto.
  - vm_compute. reflexivity.
  - apply (bool_decide_unpack _). vm_compute. reflexivity.
  - exists st'. split_and!; [done|done|..|done].
    + destruct (Hin 1 (mkAdjustment 15 (-15))) as [-> _];
        [constructor|vm_compute; reflexivity|]. vm_compute. reflexivity.
    + rewrite Hout; [vm_compute; reflexivity|].
      intros Hq. apply list_elem_of_singleton in Hq. discriminate.
    + rewrite Hout; [vm_compute; reflexivity|].
      intros Hq. apply list_elem_of_singleton in Hq. discriminate.
Defined.

(** ** updateElo and the elo command *)

(** X6. [updateElo] in [Add] mode ([update=True]) starts from the member's
    record, or from the initial record (rating 100, no win, no match played
    or hosted) when the member has none; every stat listed is the old value
    plus the listed one, or the listed value when the record has no such
    stat; the stats that are not listed and the records of the other
    members are left as they were. *)
Theorem updateElo_adds (gs : gmap Z (gmap string Z)) (member : Z)
    (stats : list (string * Z)) :
  NoDup stats.*1 →
  ∃ record,
    Bot.updateElo gs member stats true !! member = Some record
    ∧ (∀ key value, (key, value) ∈ stats →
         record !! key
         = Some (match recordOf gs member !! key with
                 | Some old => old + value
                 | None => value
                 end))
    ∧ (∀ key, key ∉ stats.*1 → record !! key = recordOf gs member !! key)
    ∧ (∀ q, q ≠ member →
         Bot.updateElo gs member stats true !! q = gs !! q).
Proof.
  intros Hnd. unfold Bot.updateElo. eexists.
  split; [apply lookup_insert_eq|]. split_and!.
  - intros key value Hin. by rewrite (updateStats_listed true _ _ _ _ Hnd Hin).
  - intros key Hk. by apply updateStats_other.
  - intros q Hq. by rewrite lookup_insert_ne.
Qed.

Lemma updateElo_adds_witness :
  ∃ record,
    Bot.updateElo ∅ 7 [("elo", 14); ("played", 1); ("wins", 1)] true !! 7
    = Some record
    ∧ record !! "elo" = Some 114
    ∧ record !! "played" = Some 1
    ∧ record !! "hosted" = Some 0.
Proof.
  destruct (updateElo_adds ∅ 7 [("elo", 14); ("played", 1); ("wins", 1)])
    as (record & Hrec & Hin & Hout & _).
  - apply (bool_decide_unpack _). vm_compute. reflexivity.
  - exists record. split_and!; [done|..].
    + rewrite (Hin "elo" 14) by (vm_compute; constructor). reflexivity.
    + rewrite (Hin "played" 1) by (vm_compute; do 2 constructor).
      reflexivity.
    + rewrite (Hout "hosted"); [reflexivity|].
      apply (bool_decide_unpack _). vm_compute. reflexivity.
Defined.

(** X7. [updateElo] in [Set] mode ([update=False]) overwrites: every stat
    listed reads the listed value afterwards, whatever it was; the other
    stats and the other members are left as they were; and doing the same
    call again changes nothing. *)
Theorem updateElo_sets (gs : gmap Z (gmap string Z)) (member : Z)
    (stats : list (string * Z)) :
  NoDup stats.*1 →
  let gs' := Bot.updateElo gs member stats false in
  (∀ key value d, (key, value) ∈ stats → Bot.stat gs' member key d = value)
  ∧ (∀ key, key ∉ stats.*1 →
       gs' !! member ≫= (λ record, record !! key)
       = recordOf gs member !! key)
  ∧ (∀ q, q ≠ member → gs' !! q = gs !! q)
  ∧ Bot.updateElo gs' member stats false = gs'.
Proof.
  intros Hnd gs'.
  assert (∀ record key value, (key, value) ∈ stats →
            foldl (Bot.updateStat false) record stats !! key = Some value)
    as Hset.
  { intros record key value Hin.
    rewrite (updateStats_listed false _ _ _ _ Hnd Hin).
    by destruct (record !! key). }
  split_and!.
  - intros key value d Hin. unfold Bot.stat, gs', Bot.updateElo.
    rewrite lookup_insert_eq. simpl. by rewrite (Hset _ _ _ Hin).
  - intros key Hk. unfold gs', Bot.updateElo. rewrite lookup_insert_eq.
    simpl. by apply updateStats_other.
  - intros q Hq. unfold gs', Bot.updateElo. by rewrite lookup_insert_ne.
  - unfold gs', Bot.updateElo. rewrite lookup_insert_eq. simpl.
    rewrite insert_insert_eq. f_equal.
    apply map_eq. intros key.
    destruct (decide (key ∈ stats.*1)) as [Hin|Hout].
    + apply list_elem_of_fmap in Hin as ([k v] & -> & Hin). simpl.
      by rewrite !(Hset _ _ _ Hin).
    + by rewrite updateStats_other.
Qed.

Lemma updateElo_sets_witness :
  let gs' := Bot.updateElo {[ 7 := rated 120 ]} 7 [("elo", 90)] false in
  Bot.stat gs' 7 "elo" 100 = 90
  ∧ Bot.updateElo gs' 7 [("elo", 90)] false = gs'.
Proof.
  destruct (updateElo_sets {[ 7 := rated 120 ]} 7 [("elo", 90)])
    as (Hin & _ & _ & Hidem).
  - apply (bool_decide_unpack _). vm_compute. reflexivity.
  - split; [apply Hin; constructor|exact Hidem].
Defined.

(** X8. The elo command reads the number of wins under the name ["won"],
    while every handler writes it under ["wins"]. On a ledger that no
    handler has given a stat ["won"], and [endMatch] gives none, the
    profile of any member, after any match has been resolved, shows no win
    and counts every match played as lost; the number of matches played is
    the one of the ledger. *)
Theorem elo_shows_no_win (st : Bot.State) (matchId : string) (winner : Z)
    (person : Z) :
  noWonKey (Bot.guildStats st) →
  let resolved := (Bot.endMatch st matchId winner).1 in
  let profile := (Bot.elo resolved person).2 in
  Bot.pWon profile = 0
  ∧ Bot.pLost profile = Bot.pPlayed profile
  ∧ Bot.pPlayed profile = playedOf (Bot.guildStats resolved) person
  ∧ Bot.pElo profile = rating (Bot.guildStats resolved) person.
Proof.
  intros Hn resolved profile.
  destruct (endMatch_frame_gen st matchId winner)
    as (_ & _ & Hwon & _). specialize (Hwon Hn). fold resolved in Hwon.
  assert (∀ key d, Bot.initialStats !! key = Some d →
            Bot.stat (Bot.updateElo (Bot.guildStats resolved) person [] true)
                     person key d
            = Bot.stat (Bot.guildStats resolved) person key d) as Hsame.
  { intros key d Hd. apply updateElo_unlisted; [apply not_elem_of_nil|].
    by left. }
  assert (Bot.pWon profile = 0) as Hzero.
  { unfold profile, Bot.elo, Bot.stat, Bot.updateElo. simpl.
    rewrite lookup_insert_eq. simpl.
    destruct (Bot.guildStats resolved !! person) as [r|] eqn:Hr; simpl.
    - by rewrite (Hwon person r Hr).
    - reflexivity. }
  split_and!.
  - done.
  - unfold profile, Bot.elo in *. simpl in *. rewrite Hzero. lia.
  - unfold profile, Bot.elo, playedOf. simpl. by apply Hsame.
  - unfold profile, Bot.elo, rating. simpl. by apply Hsame.
Qed.

Lemma elo_shows_no_win_witness :
  let resolved := (Bot.endMatch duelState "dUeL01" 0).1 in
  let profile := (Bot.elo resolved 1).2 in
  winsOf (Bot.guildStats resolved) 1 = 1
  ∧ Bot.pWon profile = 0
  ∧ Bot.pLost profile = Bot.pPlayed profile
  ∧ Bot.pPlayed profile = playedOf (Bot.guildStats resolved) 1
  ∧ Bot.pElo profile = rating (Bot.guildStats resolved) 1.
Proof.
  split; [vm_compute; reflexivity|].
  apply (elo_shows_no_win duelState "dUeL01" 0 1).
  apply (bool_decide_unpack _). vm_compute. reflexivity.
Defined.

(** ** Cancelling a match *)

(** X9. Cancelling an active match takes it out of the registry and
    touches nothing else: no rating, no roster, no other match. From then
    on the id is unknown: [endMatch], [swapWinners], [cancelMatch] and
    [replace] on it all end with a notice and leave the state as it is. *)
Theorem cancelMatch_frees_id (st : Bot.State) (matchId : string)
    (cMatch : Bot.Match) :
  Bot.matches st !! matchId = Some cMatch →
  Bot.who_won cMatch = None →
  ∃ st',
    Bot.cancelMatch st matchId = (st', Bot.Completed)
    ∧ Bot.matches st' = delete matchId (Bot.matches st)
    ∧ Bot.guildStats st' = Bot.guildStats st
    ∧ Bot.lists st' = Bot.lists st
    ∧ (∀ winner, Bot.endMatch st' matchId winner
                 = (st', Bot.Notified Bot.AlreadyEndedOrCancelled))
    ∧ Bot.swapWinners st' matchId = (st', Bot.Notified Bot.MatchNotFound)
    ∧ Bot.cancelMatch st' matchId
      = (st', Bot.Notified Bot.AlreadyEndedOrCancelled)
    ∧ (∀ fk guildMembers vcOk a b,
         Bot.replace fk st' guildMembers vcOk matchId a b
         = (st', Bot.Notified Bot.MatchAlreadyEnded)).
Proof.
  intros Hm Hw. unfold Bot.cancelMatch at 1. rewrite Hm, Hw.
  eexists. split; [reflexivity|].
  assert (Bot.matches (Bot.set_matches st (delete matchId (Bot.matches st)))
          !! matchId = None) as Hgone by apply lookup_delete_eq.
  split_and!; try done.
  - intros winner. by apply endMatch_unknown.
  - by apply swapWinners_unknown.
  - by apply cancelMatch_unknown.
  - intros. by apply replace_unknown.
Qed.

Lemma cancelMatch_frees_id_witness :
  ∃ st',
    Bot.cancelMatch duelState "dUeL01" = (st', Bot.Completed)
    ∧ Bot.matches st' = delete "dUeL01" (Bot.matches duelState)
    ∧ Bot.guildStats st' = Bot.guildStats duelState
    ∧ Bot.lists st' = Bot.lists duelState
    ∧ (∀ winner, Bot.endMatch st' "dUeL01" winner
                 = (st', Bot.Notified Bot.AlreadyEndedOrCancelled))
    ∧ Bot.swapWinners st' "dUeL01" = (st', Bot.Notified Bot.MatchNotFound)
    ∧ Bot.cancelMatch st' "dUeL01"
      = (st', Bot.Notified Bot.AlreadyEndedOrCancelled)
    ∧ (∀ fk guildMembers vcOk a b,
         Bot.replace fk st' guildMembers vcOk "dUeL01" a b
         = (st', Bot.Notified Bot.MatchAlreadyEnded)).
Proof.
  apply (cancelMatch_frees_id duelState "dUeL01" duel).
  - vm_compute. reflexivity.
  - reflexivity.
Defined.

(** X10. A resolved match can no longer be cancelled, and stays in the
    registry so that its winner can be swapped: [cancelMatch] and
    [endMatch] are turned away with the state as it is, while
    [swapWinners] still finds the match. *)
Theorem resolved_stays (st : Bot.State) (matchId : string)
    (cMatch : Bot.Match) (w : Z) :
  Bot.matches st !! matchId = Some cMatch →
  Bot.who_won cMatch = Some w →
  Bot.cancelMatch st matchId
  = (st, Bot.Notified Bot.AlreadyEndedOrCancelled)
  ∧ (∀ winner, Bot.endMatch st matchId winner
               = (st, Bot.Notified Bot.AlreadyEndedOrCancelled))
  ∧ (Bot.swapWinners st matchId).2 ≠ Bot.Notified Bot.MatchNotFound
  ∧ (Bot.swapWinners st matchId).2 ≠ Bot.Notified Bot.MatchStillActive
  ∧ Bot.who_won <$> Bot.matches (Bot.swapWinners st matchId).1 !! matchId
    = Some (Some (if bool_decide (w = 1) then 0 else 1)).
Proof.
  intros Hm Hw. split_and!.
  - by eapply cancelMatch_resolved.
  - intros winner. by eapply endMatch_resolved.
  - unfold Bot.swapWinners. rewrite Hm, Hw. unfold Bot.finish.
    repeat case_match; simpl; done.
  - unfold Bot.swapWinners. rewrite Hm, Hw. unfold Bot.finish.
    repeat case_match; simpl; done.
  - unfold Bot.swapWinners. rewrite Hm, Hw.
    match goal with |- context [Bot.finish ?s ?r] =>
      destruct (finish_guildStats s r) as (_ & _ & -> & _) end.
    simpl. by rewrite lookup_insert_eq.
Qed.

Lemma resolved_stays_witness :
  Bot.cancelMatch duelResolved "dUeL01"
  = (duelResolved, Bot.Notified Bot.AlreadyEndedOrCancelled)
  ∧ (∀ winner, Bot.endMatch duelResolved "dUeL01" winner
               = (duelResolved, Bot.Notified Bot.AlreadyEndedOrCancelled))
  ∧ (Bot.swapWinners duelResolved "dUeL01").2
    ≠ Bot.Notified Bot.MatchNotFound
  ∧ (Bot.swapWinners duelResolved "dUeL01").2
    ≠ Bot.Notified Bot.MatchStillActive
  ∧ Bot.who_won
      <$> Bot.matches (Bot.swapWinners duelResolved "dUeL01").1 !! "dUeL01"
    = Some (Some (if bool_decide (0 = 1) then 0 else 1)).
Proof.
  apply (resolved_stays duelResolved "dUeL01" (Bot.set_who_won duel (Some 0))
           0).
  - vm_compute. reflexivity.
  - reflexivity.
Defined.

(** X11. The confirmation word of the cancel form is not enforced. The
    handler answers a wrong word with "Confirmation Failed" and goes on to
    cancel all the same: whatever is typed, an active match is taken out of
    the registry. *)
Theorem cancelModal_not_enforced (st : Bot.State) (matchId : string)
    (cMatch : Bot.Match) (confirm randomWord : string) :
  Bot.matches st !! matchId = Some cMatch →
  Bot.who_won cMatch = None →
  let r := Bot.cancelModal_on_submit st matchId confirm randomWord in
  r.2.2 = Bot.Completed
  ∧ Bot.matches r.2.1 !! matchId = None
  ∧ (lower <$> Bot.strip (String.list_ascii_of_string confirm)
     ≠ lower <$> String.list_ascii_of_string randomWord → r.1 = true).
Proof.
  intros Hm Hw r.
  destruct (cancelMatch_active st matchId cMatch Hm Hw)
    as (st' & Hrun & Hgone & _).
  unfold r, Bot.cancelModal_on_submit. simpl. rewrite Hrun. simpl.
  split_and!; try done.
  intros Hne. by rewrite bool_decide_eq_false_2.
Qed.

Lemma cancelModal_not_enforced_witness :
  let r := Bot.cancelModal_on_submit duelState "dUeL01" "no" "banana" in
  r.1 = true
  ∧ r.2.2 = Bot.Completed
  ∧ Bot.matches r.2.1 !! "dUeL01" = None.
Proof.
  destruct (cancelModal_not_enforced duelState "dUeL01" duel "no" "banana")
    as (H1 & H2 & H3).
  - vm_compute. reflexivity.
  - reflexivity.
  - split_and!; [apply H3; vm_compute; discriminate|exact H1|exact H2].
Defined.

(** ** More on creating a match *)

Section FirstKey.
Variable eloData : list (Z * Z).
Local Abbreviation players := (eloData.*1).

Lemma prefix_before {A : Type} (l1 l2 pre post : list A) (c : A) :
  l1 ++ l2 = pre ++ c :: post → c ∉ l1 → ∀ y, y ∈ l1 → y ∈ pre.
Proof.
  revert pre. induction l1 as [|a l1 IH]; intros pre Heq Hc y Hy;
    [by apply elem_of_nil in Hy|].
  apply not_elem_of_cons in Hc as [Hne Hc].
  destruct pre as [|p pre]; simpl in Heq; injection Heq as -> Heq;
    [done|].
  apply elem_of_cons in Hy as [->|Hy]; [by left|right].
  by apply (IH pre).
Qed.

(** The other side of a candidate, in the order of the players, is a
    candidate with the same difference. *)
Lemma mirror_diff (c : list Z) :
  NoDup players → c `sublist_of` players →
  diffOf eloData (filter (λ p, p ∉ c) players) = diffOf eloData c.
Proof.
  intros Hnd Hc. set (c2 := filter (λ p, p ∉ c) players).
  assert (c2 `sublist_of` players) as Hc2 by apply sublist_filter.
  pose proof (candidate_split eloData c Hnd Hc) as H1.
  pose proof (candidate_split eloData c2 Hnd Hc2) as H2.
  pose proof (sublist_filter_perm players c Hnd Hc) as H3. fold c2 in H3.
  assert (complement players c ≡ₚ c2) as Hcc by apply complement_perm.
  assert (complement players c2 ≡ₚ c) as Hcc2.
  { apply (Permutation_app_inv_l c2). etrans; [exact H2|].
    etrans; [symmetry; exact H3|]. apply Permutation_app_comm. }
  unfold diffOf.
  rewrite (sumDifference_perm eloData c2 c2 _ c (reflexivity _) Hcc2).
  rewrite (sumDifference_perm eloData c c _ c2 (reflexivity _) Hcc).
  apply sumDifference_sym.
Qed.

(** With an even number of players, the side [getTeams] returns as the red
    team starts with the first key of the dict. *)
Lemma getTeams_head_red (x e : Z) (rest : list (Z * Z)) :
  eloData = (x, e) :: rest →
  NoDup players → Nat.Even (length eloData) →
  ∃ c, getTeams eloData = Some (candidate eloData (x :: c)).
Proof.
  intros Heq Hnd [k Hk].
  destruct (getTeams_partition eloData Hnd)
    as (pre & c & post & Hcs & Hget & Hpre & _ & Hlen & Hsplit).
  assert ((length eloData / 2)%nat = k) as Hhalf.
  { rewrite Hk, Nat.mul_comm. by apply Nat.div_mul. }
  rewrite Hhalf in *.
  destruct k as [|k]; [rewrite Heq in Hk; simpl in Hk; lia|].
  assert (c `sublist_of` players) as Hsub.
  { eapply combinations_sublist. rewrite Hcs. set_solver. }
  assert (players = x :: rest.*1) as Hpl by by rewrite Heq.
  assert ((x ∉ rest.*1) ∧ NoDup rest.*1) as [Hx Hndr].
  { rewrite Hpl in Hnd. by apply NoDup_cons in Hnd. }
  rewrite Hpl in Hcs. simpl in Hcs.
  destruct (decide (c ∈ (cons x <$> combinations rest.*1 k))) as [Hin|Hout].
  { apply list_elem_of_fmap in Hin as (c' & -> & _). by exists c'. }
  exfalso.
  assert (x ∉ c) as Hxc.
  { assert (c ∈ (cons x <$> combinations rest.*1 k)
                ++ combinations rest.*1 (S k)) as Hc
      by (rewrite Hcs; set_solver).
    apply elem_of_app in Hc as [Hc|Hc]; [done|].
    apply combinations_sublist in Hc as [Hc _].
    intros Hxc. apply Hx. by apply (sublist_subseteq _ _ Hc). }
  set (c2 := filter (λ p, p ∉ c) players).
  assert (c2 ∈ (cons x <$> combinations rest.*1 k)) as Hc2.
  { assert (c2 = x :: filter (λ p, p ∉ c) rest.*1) as Hc2eq.
    { unfold c2. rewrite Hpl. by rewrite filter_cons_True. }
    rewrite Hc2eq. apply list_elem_of_fmap. eexists. split; [done|].
    assert (length (filter (λ p, p ∉ c) rest.*1) = k) as <-.
    { pose proof (sublist_filter_perm players c Hnd Hsub) as Hp.
      fold c2 in Hp. apply Permutation_length in Hp.
      rewrite length_app, Hc2eq, length_fmap in Hp. simpl in Hp. lia. }
    apply sublist_combinations, sublist_filter. }
  pose proof (prefix_before _ _ _ _ _ Hcs Hout c2 Hc2) as Hpc2.
  specialize (Hpre c2 Hpc2).
  unfold c2 in Hpre. rewrite mirror_diff in Hpre by done. lia.
Qed.

End FirstKey.

(** X12. For a rating map with an even, positive number of participants,
    the red side [getTeams] returns starts with the first key of the map:
    of a matchup and its mirror image, the one with the first participant
    on the red side is enumerated first and the other cannot beat it. *)
Theorem getTeams_first_on_red (eloData : list (Z * Z)) (x e : Z)
    (rest : list (Z * Z)) :
  eloData = (x, e) :: rest →
  NoDup eloData.*1 →
  Nat.Even (length eloData) →
  ∃ m, getTeams eloData = Some m ∧ head (redTeam m) = Some x
       ∧ x ∉ blueTeam m.
Proof.
  intros Heq Hnd Hev.
  destruct (getTeams_head_red eloData x e rest Heq Hnd Hev) as [c Hget].
  exists (candidate eloData (x :: c)). split_and!; [done|done|].
  cbn [blueTeam candidate]. unfold complement.
  rewrite sorted_perm. intros [Hx _]%list_elem_of_filter.
  apply Hx. by left.
Qed.

Lemma getTeams_first_on_red_witness :
  ∃ m, getTeams [(4, 80); (2, 100); (3, 100); (1, 120)] = Some m
       ∧ head (redTeam m) = Some 4
       ∧ 4 ∉ blueTeam m.
Proof.
  apply (getTeams_first_on_red [(4, 80); (2, 100); (3, 100); (1, 120)]
           4 80 [(2, 100); (3, 100); (1, 120)] eq_refl).
  - apply (bool_decide_unpack _). vm_compute. reflexivity.
  - exists 2%nat. reflexivity.
Defined.
